(** * AI chat-based task manager: the agent loop and its tools

    A shallow embedding of [python_backend/app]: the task model
    ([models.py]), the five task tools ([tools.py]), the LangGraph agent
    with its two nodes and the [TaskAgent] session wrapper ([agent.py]),
    and the rendering of tool outcomes done by the websocket endpoint
    ([main.py]).

    Python values are embedded as a small universe [pyval]; exceptions
    as the second constructor of [res]; the SQLAlchemy session as a unit
    of work over a table of rows; Python lists that are copied and
    appended to (the chat history) as cells of a heap. *)

From Stdlib Require Import ZArith String Ascii List Bool Lia DecimalString.
From Stdlib Require Import Sorted.
From stdpp Require Import base decidable option list strings.
Import ListNotations.
Open Scope Z_scope.
Open Scope string_scope.
Open Scope list_scope.
Set Warnings "-register-all".

(** ** Python values, strings and exceptions *)

Module py.

(** The values that cross the tool boundary: JSON-like data, plus
    [PObj cls] for an object of any other class. A dict keeps its
    insertion order; its keys are taken to be distinct. *)
Inductive pyval : Type :=
| PNone
| PBool (b : bool)
| PInt (z : Z)
| PStr (s : string)
| PList (l : list pyval)
| PDict (d : list (string * pyval))
| PObj (cls : string).

Inductive exn_class : Type :=
| AttributeError | TypeError | KeyError | ValueError
| StoreError | ModelInvocationError | GraphRecursionError.

(** An exception instance; [str(e)] is its message. All classes above
    derive from [Exception]. *)
Record exn : Type := Exn { exn_cls : exn_class; exn_str : string }.

(** The result of running a piece of Python: a value, or a raised
    exception. *)
Inductive res (A : Type) : Type :=
| Returns (a : A)
| Raises (e : exn).
Arguments Returns {A} a.
Arguments Raises {A} e.

Definition nl : string := String "010"%char EmptyString.

(** [sep.join(parts)] *)
Fixpoint join (sep : string) (parts : list string) : string :=
  match parts with
  | [] => EmptyString
  | [p] => p
  | p :: rest => p +:+ sep +:+ join sep rest
  end.

Definition upper_ascii (c : ascii) : ascii :=
  let n := nat_of_ascii c in
  if Nat.leb 97 n && Nat.leb n 122 then ascii_of_nat (n - 32) else c.

Definition lower_ascii (c : ascii) : ascii :=
  let n := nat_of_ascii c in
  if Nat.leb 65 n && Nat.leb n 90 then ascii_of_nat (n + 32) else c.

Fixpoint map_chars (f : ascii -> ascii) (s : string) : string :=
  match s with
  | EmptyString => EmptyString
  | String c s' => String (f c) (map_chars f s')
  end.

(** [s.upper()] and [s.lower()] on ASCII text. *)
Definition upper : string -> string := map_chars upper_ascii.
Definition lower : string -> string := map_chars lower_ascii.

(** [str(n)] for an int. *)
Definition str_int (z : Z) : string := NilZero.string_of_int (Z.to_int z).

(** Truthiness of the optional arguments: [None], [0] and the empty
    string are falsy. *)
Definition truthy_str (o : option string) : bool :=
  match o with
  | Some (String _ _) => true
  | _ => false
  end.

Definition truthy_int (o : option Z) : bool :=
  match o with
  | Some z => negb (Z.eqb z 0)
  | None => false
  end.

(** [needle in hay] *)
Fixpoint contains (hay needle : string) : bool :=
  String.prefix needle hay ||
  match hay with
  | EmptyString => false
  | String _ hay' => contains hay' needle
  end.

(** [d.get(k)] on a dict; [None] when the key is absent. *)
Fixpoint dict_get (d : list (string * pyval)) (k : string) : option pyval :=
  match d with
  | [] => None
  | (k', v) :: d' => if String.eqb k' k then Some v else dict_get d' k
  end.

Definition of_opt_str (o : option string) : pyval :=
  match o with Some s => PStr s | None => PNone end.

#[export] Instance res_ret : MRet res := fun A a => Returns a.

#[export] Instance res_bind : MBind res := fun A B f m =>
  match m with
  | Returns a => f a
  | Raises e => Raises e
  end.

(** [v[k]] for a string key. *)
Definition getitem (v : pyval) (k : string) : res pyval :=
  match v with
  | PDict d =>
      match dict_get d k with
      | Some x => Returns x
      | None => Raises (Exn KeyError ("'" +:+ k +:+ "'"))
      end
  | _ => Raises (Exn TypeError "object is not subscriptable by a string")
  end.

(** [v.get(k, dflt)] *)
Definition get (v : pyval) (k : string) (dflt : pyval) : res pyval :=
  match v with
  | PDict d => Returns (default dflt (dict_get d k))
  | _ => Raises (Exn AttributeError "object has no attribute 'get'")
  end.

(** [v == s] for a string literal [s]. *)
Definition eq_str (v : pyval) (s : string) : bool :=
  match v with
  | PStr x => String.eqb x s
  | _ => false
  end.

(** [bool(v)] *)
Definition truthy (v : pyval) : bool :=
  match v with
  | PNone => false
  | PBool b => b
  | PInt z => negb (Z.eqb z 0)
  | PStr s => negb (String.eqb s EmptyString)
  | PList l => match l with [] => false | _ => true end
  | PDict d => match d with [] => false | _ => true end
  | PObj _ => true
  end.

(** The items of a list that [str.join] accepts: all of them strings. *)
Fixpoint strings_of (l : list pyval) : res (list string) :=
  match l with
  | [] => Returns []
  | PStr s :: l' => rest ← strings_of l'; Returns (s :: rest)
  | _ :: _ => Raises (Exn TypeError "sequence item: expected str instance")
  end.

(** [[f(x) for x in xs]] where [f] may raise. *)
Fixpoint map_res {A B : Type} (f : A -> res B) (xs : list A) : res (list B) :=
  match xs with
  | [] => Returns []
  | x :: xs' => y ← f x; ys ← map_res f xs'; Returns (y :: ys)
  end.

End py.
Export py.

(** ** models.py *)

Module models.

Inductive TaskStatus : Type := TODO | IN_PROGRESS | DONE | CANCELLED.

Inductive TaskPriority : Type := LOW | MEDIUM | HIGH | URGENT.

#[export] Instance TaskStatus_eq_dec : EqDecision TaskStatus.
Proof. solve_decision. Defined.

#[export] Instance TaskPriority_eq_dec : EqDecision TaskPriority.
Proof. solve_decision. Defined.

(** [member.value] *)
Definition status_value (s : TaskStatus) : string :=
  match s with
  | TODO => "todo"
  | IN_PROGRESS => "in_progress"
  | DONE => "done"
  | CANCELLED => "cancelled"
  end.

Definition priority_value (p : TaskPriority) : string :=
  match p with
  | LOW => "low"
  | MEDIUM => "medium"
  | HIGH => "high"
  | URGENT => "urgent"
  end.

(** [TaskStatus[name]]: lookup by member name; [None] is [KeyError]. *)
Definition status_by_name (name : string) : option TaskStatus :=
  if String.eqb name "TODO" then Some TODO
  else if String.eqb name "IN_PROGRESS" then Some IN_PROGRESS
  else if String.eqb name "DONE" then Some DONE
  else if String.eqb name "CANCELLED" then Some CANCELLED
  else None.

Definition priority_by_name (name : string) : option TaskPriority :=
  if String.eqb name "LOW" then Some LOW
  else if String.eqb name "MEDIUM" then Some MEDIUM
  else if String.eqb name "HIGH" then Some HIGH
  else if String.eqb name "URGENT" then Some URGENT
  else None.

(** [str(list(TaskStatus))] and [str(list(TaskPriority))], as they
    appear in the error messages. *)
Definition status_list_str : string :=
  "[<TaskStatus.TODO: 'todo'>, <TaskStatus.IN_PROGRESS: 'in_progress'>, "
  +:+ "<TaskStatus.DONE: 'done'>, <TaskStatus.CANCELLED: 'cancelled'>]".

Definition priority_list_str : string :=
  "[<TaskPriority.LOW: 'low'>, <TaskPriority.MEDIUM: 'medium'>, "
  +:+ "<TaskPriority.HIGH: 'high'>, <TaskPriority.URGENT: 'urgent'>]".

(** A row of the [tasks] table. Instants ([DateTime] columns) are
    integers. *)
Record Task : Type := mkTask {
  id : Z;
  title : string;
  description : option string;
  status : TaskStatus;
  due_date : option Z;
  priority : TaskPriority;
  created_at : Z;
  updated_at : Z
}.

#[export] Instance Task_eq_dec : EqDecision Task.
Proof. solve_decision. Defined.

(** A transient [Task(...)] object, before it is inserted: the primary
    key and the two timestamps are filled in by the database. *)
Record NewTask : Type := mkNewTask {
  n_title : string;
  n_description : option string;
  n_due_date : option Z;
  n_priority : TaskPriority;
  n_status : TaskStatus
}.

End models.
Export models.

(** ** The record store: a SQLAlchemy session over the [tasks] table *)

Module database.

(** The committed state: the rows in table order, the next primary key
    and the server clock read by [func.now()]. *)
Record db : Type := mkDb {
  rows : list Task;
  next_id : Z;
  db_now : Z
}.

(** A session is a unit of work: objects loaded through it and changed
    in memory, objects added, objects marked for deletion. Nothing
    reaches [bind] before [commit]. *)
Record Session : Type := mkSession {
  bind : db;
  loaded : list Task;
  added : list NewTask;
  deleted : list Z
}.

(** Modelled from the spec: [app.database.SessionLocal] is not among
    the sources; the spec has the record store as an external collaborator with
    create, update, delete, list and filter. It is taken to be a plain
    [sessionmaker], whose sessions start with nothing pending. *)
Definition SessionLocal (d : db) : Session :=
  {| bind := d; loaded := []; added := []; deleted := [] |}.

(** SQL [LIKE] without an [ESCAPE] clause: [%] matches any run of
    characters, [_] any single one. *)
Fixpoint like (pat s : string) {struct pat} : bool :=
  match pat with
  | EmptyString => match s with EmptyString => true | _ => false end
  | String c pat' =>
      if Ascii.eqb c "%" then
        (fix skip (s : string) : bool :=
           like pat' s ||
           match s with
           | EmptyString => false
           | String _ s' => skip s'
           end) s
      else if Ascii.eqb c "_" then
        match s with
        | EmptyString => false
        | String _ s' => like pat' s'
        end
      else
        match s with
        | EmptyString => false
        | String d s' => Ascii.eqb c d && like pat' s'
        end
  end.

(** [column.ilike(pat)]: [lower(column) LIKE lower(pat)]. *)
Definition ilike (column pat : string) : bool := like (lower pat) (lower column).

(** [db.query(Task).filter(cond).first()]: the first row, in table
    order, that satisfies the condition; the object is loaded into the
    session. *)
Definition query_first (cond : Task -> bool) (s : Session)
  : option Task * Session :=
  match find cond (rows (bind s)) with
  | Some t =>
      (Some t, {| bind := bind s; loaded := loaded s ++ [t];
                  added := added s; deleted := deleted s |})
  | None => (None, s)
  end.

(** [task.attr = v]: the loaded object with the primary key of [t]
    now has the state [t]. *)
Definition set_attrs (t : Task) (s : Session) : Session :=
  {| bind := bind s;
     loaded := map (fun o => if Z.eqb (id o) (id t) then t else o) (loaded s);
     added := added s; deleted := deleted s |}.

(** [db.add(obj)] *)
Definition add (n : NewTask) (s : Session) : Session :=
  {| bind := bind s; loaded := loaded s;
     added := added s ++ [n]; deleted := deleted s |}.

(** [db.delete(obj)] *)
Definition delete (t : Task) (s : Session) : Session :=
  {| bind := bind s; loaded := loaded s;
     added := added s; deleted := deleted s ++ [id t] |}.

(** An [INSERT]: the new row gets the next primary key, kept here as
    a counter, and the server time as both timestamps. *)
Definition insert_row (d : db) (n : NewTask) : db :=
  {| rows := rows d ++
       [ {| id := next_id d; title := n_title n;
            description := n_description n; status := n_status n;
            due_date := n_due_date n; priority := n_priority n;
            created_at := db_now d; updated_at := db_now d |} ];
     next_id := next_id d + 1;
     db_now := db_now d |}.

(** An [UPDATE] is issued for a loaded object whose state differs from
    its row; [onupdate=func.now()] then stamps [updated_at]. *)
Definition update_row (now : Z) (objs : list Task) (r : Task) : Task :=
  match find (fun o => Z.eqb (id o) (id r)) (rev objs) with
  | Some o =>
      if bool_decide (o = r) then r
      else {| id := id o; title := title o; description := description o;
              status := status o; due_date := due_date o;
              priority := priority o; created_at := created_at o;
              updated_at := now |}
  | None => r
  end.

(** What a flush followed by [COMMIT] leaves in the database. *)
Definition flushed (s : Session) : db :=
  let d := bind s in
  let updated := map (update_row (db_now d) (loaded s)) (rows d) in
  let kept :=
    List.filter (fun r => negb (existsb (Z.eqb (id r)) (deleted s))) updated in
  fold_left insert_row (added s)
    {| rows := kept; next_id := next_id d; db_now := db_now d |}.

(** [db.rollback()] and [db.close()]: pending changes are dropped. *)
Definition rollback (s : Session) : Session := SessionLocal (bind s).
Definition close (s : Session) : db := bind s.

(** [db.refresh(obj)]: the row with the object's primary key. *)
Definition refresh (key : Z) (s : Session) : option Task :=
  find (fun r => Z.eqb (id r) key) (rows (bind s)).

(** [query.order_by(Task.created_at.desc()).all()]: insertion sort,
    newest first, rows of equal age in table order. *)
Fixpoint insert_desc (t : Task) (l : list Task) : list Task :=
  match l with
  | [] => [t]
  | u :: l' =>
      if Z.leb (created_at u) (created_at t) then t :: l
      else u :: insert_desc t l'
  end.

Definition order_by_created_desc (l : list Task) : list Task :=
  fold_right insert_desc [] l.

End database.
Export database.

(** What the embedding takes from outside the repository: the standard
    library's date parsing and printing, [repr] of containers, the
    faults of the database server, and the behaviour of every callable
    that is not written in [tools.py]. *)
Class Runtime : Type := {
  (** [datetime.strptime(s, "%Y-%m-%d")]; [None] is [ValueError]. *)
  strptime : string -> option Z;
  (** [d.isoformat()] *)
  isoformat : Z -> string;
  (** [str(v)] for a list, a dict or an object. *)
  repr : pyval -> string;
  (** [Some msg] when [db.commit()] raises for this unit of work. *)
  commit_fault : Session -> option string;
  (** Calling [getattr(tools, name)] with keyword arguments, for a name
      that [tools.py] imports or that the interpreter provides, and for
      a tool called with a value of another type than its annotation. *)
  extern_call : string -> list (string * pyval) -> db -> res pyval * db
}.

(** ** tools.py *)

Module tools.
Section with_runtime.
Context {R : Runtime}.

Definition get_db_session_for_tool (d : db) : Session := SessionLocal d.

(** [db.commit()] *)
Definition commit (s : Session) : res Session :=
  match commit_fault s with
  | Some msg => Raises (Exn StoreError msg)
  | None => Returns (SessionLocal (flushed s))
  end.

Definition error_response (msg : string) : pyval :=
  PDict [("status", PStr "error"); ("message", PStr msg)].

(** The dict built from a task in every tool. *)
Definition task_dict (t : Task) : pyval :=
  PDict [ ("id", PInt (id t));
          ("title", PStr (title t));
          ("description", of_opt_str (description t));
          ("status", PStr (status_value (status t)));
          ("due_date",
            match due_date t with
            | Some d => PStr (isoformat d)
            | None => PNone
            end);
          ("priority", PStr (priority_value (priority t)));
          ("created_at", PStr (isoformat (created_at t)));
          ("updated_at", PStr (isoformat (updated_at t))) ].

(** An optional string argument that is parsed when it is truthy. *)
Definition parse_if_given {A : Type} (arg : option string)
    (parse : string -> option A) (otherwise : A) : option A :=
  match arg with
  | Some (String c rest) => parse (String c rest)
  | _ => Some otherwise
  end.

(** The body of the [try] of [create_task]. *)
Definition create_task_try (title : string)
    (description due_date priority : option string) (s : Session)
  : res pyval * Session :=
  match parse_if_given due_date (fun x => option_map Some (strptime x)) None with
  | None =>
      (Returns (error_response "Invalid due_date format. Use YYYY-MM-DD."), s)
  | Some parsed_due_date =>
      match parse_if_given priority (fun x => priority_by_name (upper x)) MEDIUM with
      | None =>
          (Returns (error_response
             ("Invalid priority: " +:+ default EmptyString priority
              +:+ ". Must be one of " +:+ priority_list_str +:+ ".")), s)
      | Some parsed_priority =>
          let new_task :=
            {| n_title := title; n_description := description;
               n_due_date := parsed_due_date; n_priority := parsed_priority;
               n_status := TODO |} in
          let key := next_id (bind s) + Z.of_nat (length (added s)) in
          let s := add new_task s in
          match commit s with
          | Raises e => (Raises e, s)
          | Returns s =>
              match refresh key s with
              | None =>
                  (Raises (Exn StoreError "Could not refresh instance"), s)
              | Some new_task =>
                  (Returns (PDict
                     [ ("status", PStr "success");
                       ("message", PStr ("Task '" +:+ models.title new_task
                          +:+ "' created successfully with ID "
                          +:+ str_int (id new_task) +:+ "."));
                       ("task", task_dict new_task) ]), s)
              end
          end
      end
  end.

Definition create_task (title : string)
    (description due_date priority : option string) (d : db) : pyval * db :=
  let s := get_db_session_for_tool d in
  match create_task_try title description due_date priority s with
  | (Returns r, s) => (r, close s)
  | (Raises e, s) =>
      let s := rollback s in
      (error_response ("Failed to create task: " +:+ exn_str e), close s)
  end.

(** [task_id or title_match], as the f-string prints it. *)
Definition selector_str (task_id : option Z) (title_match : option string)
  : string :=
  if truthy_int task_id then str_int (default 0 task_id)
  else match title_match with
       | Some s => s
       | None => "None"
       end.

(** The lookup shared by [update_task] and [delete_task]. *)
Definition find_task (task_id : option Z) (title_match : option string)
    (s : Session) : option Task * Session :=
  if truthy_int task_id then
    query_first (fun t => Z.eqb (id t) (default 0 task_id)) s
  else if truthy_str title_match then
    query_first
      (fun t => ilike (title t)
                  ("%" +:+ default EmptyString title_match +:+ "%")) s
  else (None, s).

Definition with_title (t : Task) (v : string) : Task :=
  {| id := id t; title := v; description := description t;
     status := status t; due_date := due_date t; priority := priority t;
     created_at := created_at t; updated_at := updated_at t |}.

Definition with_description (t : Task) (v : option string) : Task :=
  {| id := id t; title := title t; description := v;
     status := status t; due_date := due_date t; priority := priority t;
     created_at := created_at t; updated_at := updated_at t |}.

Definition with_status (t : Task) (v : TaskStatus) : Task :=
  {| id := id t; title := title t; description := description t;
     status := v; due_date := due_date t; priority := priority t;
     created_at := created_at t; updated_at := updated_at t |}.

Definition with_due_date (t : Task) (v : option Z) : Task :=
  {| id := id t; title := title t; description := description t;
     status := status t; due_date := v; priority := priority t;
     created_at := created_at t; updated_at := updated_at t |}.

Definition with_priority (t : Task) (v : TaskPriority) : Task :=
  {| id := id t; title := title t; description := description t;
     status := status t; due_date := due_date t; priority := v;
     created_at := created_at t; updated_at := updated_at t |}.

(** [task.attr = v] on an object loaded in the session. *)
Definition assign (t : Task) (s : Session) : Task * Session :=
  (t, set_attrs t s).

(** The body of the [try] of [update_task]. *)
Definition update_task_try (task_id : option Z)
    (title_match new_title new_description new_status new_due_date
       new_priority : option string) (s : Session)
  : res pyval * Session :=
  let '(task, s) := find_task task_id title_match s in
  match task with
  | None =>
      (Returns (error_response
         ("Task not found with ID " +:+ selector_str task_id title_match
          +:+ ".")), s)
  | Some task =>
      let '(task, s) :=
        if truthy_str new_title
        then assign (with_title task (default EmptyString new_title)) s
        else (task, s) in
      let '(task, s) :=
        if truthy_str new_description
        then assign (with_description task new_description) s
        else (task, s) in
      match parse_if_given new_status
              (fun x => option_map Some (status_by_name (upper x))) None with
      | None =>
          (Returns (error_response
             ("Invalid status: " +:+ default EmptyString new_status
              +:+ ". Must be one of " +:+ status_list_str +:+ ".")), s)
      | Some parsed_status =>
          let '(task, s) :=
            match parsed_status with
            | Some v => assign (with_status task v) s
            | None => (task, s)
            end in
          match parse_if_given new_due_date
                  (fun x => option_map Some (strptime x)) None with
          | None =>
              (Returns (error_response
                 "Invalid new_due_date format. Use YYYY-MM-DD."), s)
          | Some parsed_due_date =>
              let '(task, s) :=
                match parsed_due_date with
                | Some v => assign (with_due_date task (Some v)) s
                | None => (task, s)
                end in
              match parse_if_given new_priority
                      (fun x => option_map Some (priority_by_name (upper x)))
                      None with
              | None =>
                  (Returns (error_response
                     ("Invalid new_priority: "
                      +:+ default EmptyString new_priority
                      +:+ ". Must be one of " +:+ priority_list_str +:+ ".")),
                   s)
              | Some parsed_priority =>
                  let '(task, s) :=
                    match parsed_priority with
                    | Some v => assign (with_priority task v) s
                    | None => (task, s)
                    end in
                  match commit s with
                  | Raises e => (Raises e, s)
                  | Returns s =>
                      match refresh (id task) s with
                      | None =>
                          (Raises (Exn StoreError "Could not refresh instance"),
                           s)
                      | Some task =>
                          (Returns (PDict
                             [ ("status", PStr "success");
                               ("message", PStr ("Task '" +:+ title task
                                  +:+ "' updated successfully."));
                               ("task", task_dict task) ]), s)
                      end
                  end
              end
          end
      end
  end.

Definition update_task (task_id : option Z)
    (title_match new_title new_description new_status new_due_date
       new_priority : option string) (d : db) : pyval * db :=
  let s := get_db_session_for_tool d in
  match update_task_try task_id title_match new_title new_description
          new_status new_due_date new_priority s with
  | (Returns r, s) => (r, close s)
  | (Raises e, s) =>
      let s := rollback s in
      (error_response ("Failed to update task: " +:+ exn_str e), close s)
  end.

(** The body of the [try] of [delete_task]. *)
Definition delete_task_try (task_id : option Z) (title_match : option string)
    (s : Session) : res pyval * Session :=
  let '(task, s) := find_task task_id title_match s in
  match task with
  | None =>
      (Returns (error_response
         ("Task not found with ID " +:+ selector_str task_id title_match
          +:+ ".")), s)
  | Some task =>
      let s := delete task s in
      match commit s with
      | Raises e => (Raises e, s)
      | Returns s =>
          (Returns (PDict
             [ ("status", PStr "success");
               ("message", PStr ("Task '" +:+ title task +:+ "' (ID: "
                  +:+ str_int (id task) +:+ ") deleted successfully.")) ]), s)
      end
  end.

Definition delete_task (task_id : option Z) (title_match : option string)
    (d : db) : pyval * db :=
  let s := get_db_session_for_tool d in
  match delete_task_try task_id title_match s with
  | (Returns r, s) => (r, close s)
  | (Raises e, s) =>
      let s := rollback s in
      (error_response ("Failed to delete task: " +:+ exn_str e), close s)
  end.

Definition tasks_response (tasks : list Task) : pyval :=
  PDict [("status", PStr "success"); ("tasks", PList (map task_dict tasks))].

(** Reading the table does not fault in this model, so the [except]
    clauses of the two read-only tools have nothing to catch. *)
Definition list_tasks (d : db) : pyval * db :=
  let s := get_db_session_for_tool d in
  let tasks := order_by_created_desc (rows (bind s)) in
  (tasks_response tasks, close s).

(** A comparison with a [NULL] due date selects nothing. *)
Definition due_cmp (cmp : Z -> Z -> bool) (bound : Z) (t : Task) : bool :=
  match due_date t with
  | Some d => cmp d bound
  | None => false
  end.

Definition filter_tasks (status priority due_date_before due_date_after
    : option string) (d : db) : pyval * db :=
  let s := get_db_session_for_tool d in
  let query := rows (bind s) in
  match parse_if_given status
          (fun x => option_map Some (status_by_name (upper x))) None with
  | None =>
      (error_response
         ("Invalid status for filter: " +:+ default EmptyString status
          +:+ ". Must be one of " +:+ status_list_str +:+ "."), close s)
  | Some st =>
  let query :=
    match st with
    | Some v => List.filter (fun t => bool_decide (models.status t = v)) query
    | None => query
    end in
  match parse_if_given priority
          (fun x => option_map Some (priority_by_name (upper x))) None with
  | None =>
      (error_response
         ("Invalid priority for filter: " +:+ default EmptyString priority
          +:+ ". Must be one of " +:+ priority_list_str +:+ "."), close s)
  | Some pr =>
  let query :=
    match pr with
    | Some v => List.filter (fun t => bool_decide (models.priority t = v)) query
    | None => query
    end in
  match parse_if_given due_date_before
          (fun x => option_map Some (strptime x)) None with
  | None =>
      (error_response "Invalid due_date_before format. Use YYYY-MM-DD.",
       close s)
  | Some before =>
  let query :=
    match before with
    | Some parsed_date => List.filter (due_cmp Z.leb parsed_date) query
    | None => query
    end in
  match parse_if_given due_date_after
          (fun x => option_map Some (strptime x)) None with
  | None =>
      (error_response "Invalid due_date_after format. Use YYYY-MM-DD.",
       close s)
  | Some after =>
  let query :=
    match after with
    | Some parsed_date => List.filter (due_cmp Z.geb parsed_date) query
    | None => query
    end in
  (tasks_response (order_by_created_desc query), close s)
  end end end end.

(** *** The module as an object

    [agent.execute_tool] reaches the functions above through
    [getattr(tools, tool_name)] and calls them with keyword arguments. *)

(** The names bound by [def] in [tools.py]. *)
Definition defined_names : list string :=
  [ "get_db_session_for_tool"; "create_task"; "update_task"; "delete_task";
    "list_tasks"; "filter_tasks" ].

(** The names bound by the [import] statements of [tools.py]. *)
Definition imported_names : list string :=
  [ "Session"; "Task"; "TaskStatus"; "TaskPriority"; "datetime";
    "Optional"; "List"; "Dict"; "Union"; "or_" ].

(** The names that the interpreter gives every module object: those it
    sets in the module's namespace on import, and the attributes of the
    module type. [getattr] finds no other double-underscore name. *)
Definition module_names : list string :=
  [ "__name__"; "__doc__"; "__package__"; "__loader__"; "__spec__";
    "__file__"; "__cached__"; "__builtins__"; "__annotations__";
    "__dict__"; "__class__"; "__delattr__"; "__dir__"; "__eq__";
    "__format__"; "__ge__"; "__getattribute__"; "__getstate__"; "__gt__";
    "__hash__"; "__init__"; "__init_subclass__"; "__le__"; "__lt__";
    "__ne__"; "__new__"; "__reduce__"; "__reduce_ex__"; "__repr__";
    "__setattr__"; "__sizeof__"; "__str__"; "__subclasshook__" ].

(** The first keyword that is not a parameter of the function. *)
Definition unexpected (params : list string) (args : list (string * pyval))
  : option string :=
  option_map fst
    (find (fun kv => negb (existsb (String.eqb (fst kv)) params)) args).

Definition unexpected_keyword (fn k : string) : exn :=
  Exn TypeError (fn +:+ "() got an unexpected keyword argument '" +:+ k +:+ "'").

(** An argument annotated [Optional[str]]: absent or [None], or a
    string; the outer [None] is a value of another type. *)
Definition opt_str (args : list (string * pyval)) (k : string)
  : option (option string) :=
  match dict_get args k with
  | None | Some PNone => Some None
  | Some (PStr v) => Some (Some v)
  | Some _ => None
  end.

(** An argument annotated [Optional[int]]. *)
Definition opt_int (args : list (string * pyval)) (k : string)
  : option (option Z) :=
  match dict_get args k with
  | None | Some PNone => Some None
  | Some (PInt v) => Some (Some v)
  | Some _ => None
  end.

Definition returning (r : pyval * db) : res pyval * db :=
  (Returns (fst r), snd r).

(** [getattr(tools, name)] called with the keyword arguments [args]. *)
Definition invoke (name : string) (args : list (string * pyval)) (d : db)
  : res pyval * db :=
  if String.eqb name "create_task" then
    match unexpected ["title"; "description"; "due_date"; "priority"] args with
    | Some k => (Raises (unexpected_keyword name k), d)
    | None =>
        match dict_get args "title" with
        | None =>
            (Raises (Exn TypeError
               "create_task() missing 1 required positional argument: 'title'"),
             d)
        | Some (PStr title) =>
            match opt_str args "description", opt_str args "due_date",
                  opt_str args "priority" with
            | Some description, Some due_date, Some priority =>
                returning (create_task title description due_date priority d)
            | _, _, _ => extern_call name args d
            end
        | Some _ => extern_call name args d
        end
    end
  else if String.eqb name "update_task" then
    match unexpected ["task_id"; "title_match"; "new_title"; "new_description";
                      "new_status"; "new_due_date"; "new_priority"] args with
    | Some k => (Raises (unexpected_keyword name k), d)
    | None =>
        match opt_int args "task_id", opt_str args "title_match",
              opt_str args "new_title", opt_str args "new_description",
              opt_str args "new_status", opt_str args "new_due_date",
              opt_str args "new_priority" with
        | Some task_id, Some title_match, Some new_title,
          Some new_description, Some new_status, Some new_due_date,
          Some new_priority =>
            returning (update_task task_id title_match new_title
                         new_description new_status new_due_date
                         new_priority d)
        | _, _, _, _, _, _, _ => extern_call name args d
        end
    end
  else if String.eqb name "delete_task" then
    match unexpected ["task_id"; "title_match"] args with
    | Some k => (Raises (unexpected_keyword name k), d)
    | None =>
        match opt_int args "task_id", opt_str args "title_match" with
        | Some task_id, Some title_match =>
            returning (delete_task task_id title_match d)
        | _, _ => extern_call name args d
        end
    end
  else if String.eqb name "list_tasks" then
    match unexpected [] args with
    | Some k => (Raises (unexpected_keyword name k), d)
    | None => returning (list_tasks d)
    end
  else if String.eqb name "filter_tasks" then
    match unexpected ["status"; "priority"; "due_date_before";
                      "due_date_after"] args with
    | Some k => (Raises (unexpected_keyword name k), d)
    | None =>
        match opt_str args "status", opt_str args "priority",
              opt_str args "due_date_before", opt_str args "due_date_after" with
        | Some status, Some priority, Some due_date_before,
          Some due_date_after =>
            returning (filter_tasks status priority due_date_before
                         due_date_after d)
        | _, _, _, _ => extern_call name args d
        end
    end
  else if String.eqb name "get_db_session_for_tool" then
    match unexpected [] args with
    | Some k => (Raises (unexpected_keyword name k), d)
    | None => (Returns (PObj "Session"), d)
    end
  else if existsb (String.eqb name) imported_names
          || existsb (String.eqb name) module_names then
    extern_call name args d
  else
    (Raises (Exn AttributeError
       ("module 'app.tools' has no attribute '" +:+ name +:+ "'")), d).

End with_runtime.
End tools.

(** ** agent.py *)

Module agent.

(** A tool call requested by the model: [{"name", "args", "id"}]. *)
Record ToolCall : Type := mkToolCall {
  tc_name : string;
  tc_args : list (string * pyval);
  tc_id : string
}.

Inductive Message : Type :=
| HumanMessage (content : string)
| AIMessage (content : string) (tool_calls : list ToolCall)
| ToolMessage (content : string) (tool_call_id : string).

(** What [llm.invoke] returns: the text and the requested tool calls. *)
Record Response : Type := mkResponse {
  content : string;
  resp_tool_calls : list ToolCall
}.

(** The language model, an external capability: its answer to the
    [n]-th invocation, given the messages sent, or the exception it
    raises; and the bound LangGraph puts on the steps of one run. *)
Class Model : Type := {
  llm_invoke : nat -> list Message -> res Response;
  recursion_limit : nat
}.

(** Python lists of messages live in a heap: [list.copy] allocates a
    cell, [list.append] changes one in place, a variable holds the index
    of a cell. The world also has the record store, the number of model
    invocations made so far, and what [call_tool] writes to the log for
    every tool it has executed: the tool name and its result. *)
Record World : Type := mkWorld {
  heap : list (list Message);
  store : db;
  llm_calls : nat;
  tool_log : list (string * pyval)
}.

Definition M (A : Type) : Type := World -> res A * World.

#[export] Instance M_ret : MRet M := fun A a w => (Returns a, w).

#[export] Instance M_bind : MBind M := fun A B f m w =>
  match m w with
  | (Returns a, w') => f a w'
  | (Raises e, w') => (Raises e, w')
  end.

Definition raise {A : Type} (e : exn) : M A := fun w => (Raises e, w).

(** [try: body except Exception as e: handler(e)] *)
Definition try_except {A : Type} (body : M A) (handler : exn -> M A) : M A :=
  fun w =>
    match body w with
    | (Returns a, w') => (Returns a, w')
    | (Raises e, w') => handler e w'
    end.

(** The list a variable refers to. *)
Definition deref (r : nat) (w : World) : list Message :=
  default [] (heap w !! r).

Definition list_get (r : nat) : M (list Message) :=
  fun w => (Returns (deref r w), w).

Definition list_new (l : list Message) : M nat :=
  fun w => (Returns (length (heap w)),
            {| heap := heap w ++ [l]; store := store w;
               llm_calls := llm_calls w; tool_log := tool_log w |}).

(** [l.copy()] *)
Definition list_copy (r : nat) : M nat :=
  l ← list_get r; list_new l.

(** [l.append(x)] *)
Definition list_append (r : nat) (x : Message) : M unit :=
  fun w => (Returns tt,
            {| heap := alter (fun l => l ++ [x]) r (heap w); store := store w;
               llm_calls := llm_calls w; tool_log := tool_log w |}).

(** [logger.info] of a tool's result. *)
Definition log_result (tool_name : string) (tool_response : pyval) : M unit :=
  fun w => (Returns tt,
            {| heap := heap w; store := store w; llm_calls := llm_calls w;
               tool_log := tool_log w ++ [(tool_name, tool_response)] |}).

(** [for x in xs: acc = body(acc, x)] *)
Fixpoint for_each {A B : Type} (xs : list B) (body : A -> B -> M A) (acc : A)
  : M A :=
  match xs with
  | [] => mret acc
  | x :: xs' => acc' ← body acc x; for_each xs' body acc'
  end.

(** [str(v)] *)
Definition py_str `{Runtime} (v : pyval) : string :=
  match v with
  | PNone => "None"
  | PBool true => "True"
  | PBool false => "False"
  | PInt z => str_int z
  | PStr s => s
  | _ => repr v
  end.

Section with_runtime.
Context {R : Runtime} {L : Model}.

(** The registry bound to the model. *)
Definition tools_list : list string :=
  ["create_task"; "update_task"; "delete_task"; "list_tasks"; "filter_tasks"].

(** [getattr(tools, tool_name)] called with the arguments, against the
    record store of the world. *)
Definition tool_func (tool_name : string) (tool_args : list (string * pyval))
  : M pyval :=
  fun w =>
    let '(r, d) := tools.invoke tool_name tool_args (store w) in
    (r, {| heap := heap w; store := d; llm_calls := llm_calls w;
           tool_log := tool_log w |}).

Definition execute_tool (tool_name : string)
    (tool_args : list (string * pyval)) : M pyval :=
  try_except
    (result ← tool_func tool_name tool_args;
     mret result)
    (fun e =>
       mret (PDict [ ("status", PStr "error");
                     ("message",
                       PStr ("Tool execution failed: " +:+ exn_str e)) ])).

Record AgentState : Type := mkState {
  input : string;
  chat_history : nat;
  agent_outcome : pyval;
  tool_calls : list ToolCall;
  tasks_updated : bool
}.

(** The dict a node returns; the graph writes its keys over the state. *)
Record ModelUpdate : Type := mkModelUpdate {
  m_agent_outcome : pyval;
  m_tool_calls : list ToolCall;
  m_chat_history : nat
}.

Record ToolUpdate : Type := mkToolUpdate {
  t_agent_outcome : pyval;
  t_tasks_updated : bool;
  t_chat_history : nat
}.

(** [not messages or not isinstance(messages[-1], HumanMessage)
     or messages[-1].content != current_input] *)
Definition input_missing (messages : list Message) (current_input : string)
  : bool :=
  match last messages with
  | None => true
  | Some (HumanMessage c) => negb (String.eqb c current_input)
  | Some _ => true
  end.

(** [llm.invoke(messages)] *)
Definition invoke_llm (messages : list Message) : M Response :=
  fun w =>
    (llm_invoke (llm_calls w) messages,
     {| heap := heap w; store := store w; llm_calls := S (llm_calls w);
        tool_log := tool_log w |}).

Definition call_model (state : AgentState) : M ModelUpdate :=
  messages ← list_copy (chat_history state);
  let current_input := input state in
  seen ← list_get messages;
  (if input_missing seen current_input
   then list_append messages (HumanMessage current_input)
   else mret tt);;
  sent ← list_get messages;
  response ← invoke_llm sent;
  updated_chat_history ← list_copy messages;
  match resp_tool_calls response with
  | _ :: _ =>
      let tool_calls :=
        map (fun tc => {| tc_name := tc_name tc; tc_args := tc_args tc;
                          tc_id := tc_id tc |}) (resp_tool_calls response) in
      list_append updated_chat_history
        (AIMessage (content response) (resp_tool_calls response));;
      mret {| m_agent_outcome := PNone; m_tool_calls := tool_calls;
              m_chat_history := updated_chat_history |}
  | [] =>
      list_append updated_chat_history (AIMessage (content response) []);;
      mret {| m_agent_outcome := PStr (content response); m_tool_calls := [];
              m_chat_history := updated_chat_history |}
  end.

(** [tool_name in ["create_task", "update_task", "delete_task"]] *)
Definition is_mutating (tool_name : string) : bool :=
  existsb (String.eqb tool_name) ["create_task"; "update_task"; "delete_task"].

Definition response_item (tool_name : string) (response : pyval) : pyval :=
  PDict [("tool_name", PStr tool_name); ("response", response)].

(** The body of the loop of [call_tool]; the accumulator holds
    [responses] and [tasks_updated]. *)
Definition call_tool_body (updated_chat_history : nat)
    (acc : list pyval * bool) (tool_call : ToolCall) : M (list pyval * bool) :=
  let '(responses, tasks_updated) := acc in
  let tool_name := tc_name tool_call in
  let tool_args := tc_args tool_call in
  let tool_id := tc_id tool_call in
  try_except
    (tool_response ← execute_tool tool_name tool_args;
     log_result tool_name tool_response;;
     let responses := responses ++ [response_item tool_name tool_response] in
     list_append updated_chat_history
       (ToolMessage (py_str tool_response) tool_id);;
     mret (responses, if is_mutating tool_name then true else tasks_updated))
    (fun e =>
       let error_response :=
         PDict [ ("status", PStr "error");
                 ("message",
                   PStr ("Tool execution failed: " +:+ exn_str e)) ] in
       let responses := responses ++ [response_item tool_name error_response] in
       list_append updated_chat_history
         (ToolMessage (py_str error_response) tool_id);;
       mret (responses, tasks_updated)).

Definition call_tool (state : AgentState) : M ToolUpdate :=
  let tool_calls := tool_calls state in
  updated_chat_history ← list_copy (chat_history state);
  '(responses, tasks_updated) ←
    for_each tool_calls (call_tool_body updated_chat_history) ([], false);
  mret {| t_agent_outcome := PList responses;
          t_tasks_updated := tasks_updated;
          t_chat_history := updated_chat_history |}.

Inductive Node : Type := model | tool.

(** [None] is [END]. *)
Definition should_continue (state : AgentState) : option Node :=
  match tool_calls state with
  | _ :: _ => Some tool
  | [] => None
  end.

Definition after_model (state : AgentState) (u : ModelUpdate) : AgentState :=
  {| input := input state; chat_history := m_chat_history u;
     agent_outcome := m_agent_outcome u; tool_calls := m_tool_calls u;
     tasks_updated := tasks_updated state |}.

Definition after_tool (state : AgentState) (u : ToolUpdate) : AgentState :=
  {| input := input state; chat_history := t_chat_history u;
     agent_outcome := t_agent_outcome u; tool_calls := tool_calls state;
     tasks_updated := t_tasks_updated u |}.

(** One step of the compiled workflow: run the node, write its update
    over the state, follow the edge. [model] has a conditional edge to
    [tool] or [END], [tool] an edge back to [model]. *)
Definition step (node : Node) (state : AgentState)
  : M (option Node * AgentState) :=
  match node with
  | model =>
      u ← call_model state;
      let state := after_model state u in
      mret (should_continue state, state)
  | tool =>
      u ← call_tool state;
      mret (Some model, after_tool state u)
  end.

(** The workflow run for at most [steps] steps. *)
Fixpoint run (steps : nat) (node : Node) (state : AgentState)
  : M AgentState :=
  match steps with
  | O => raise (Exn GraphRecursionError "Recursion limit reached")
  | S steps' =>
      '(next, state) ← step node state;
      match next with
      | Some node' => run steps' node' state
      | None => mret state
      end
  end.

(** [app_agent.ainvoke(initial_state)], from the entry point. *)
Definition ainvoke (initial_state : AgentState) : M AgentState :=
  run recursion_limit model initial_state.

(** *** TaskAgent *)

Record TaskAgent : Type := mkAgent { self_chat_history : nat }.

(** [TaskAgent()] *)
Definition TaskAgent_init : M TaskAgent :=
  h ← list_new []; mret {| self_chat_history := h |}.

(** [await agent.process_input(user_input)]: the result or the
    exception, and the agent object afterwards. *)
Definition process_input (self : TaskAgent) (user_input : string) (w : World)
  : res AgentState * TaskAgent * World :=
  let turn : M AgentState :=
    history ← list_copy (self_chat_history self);
    let initial_state :=
      {| input := user_input; chat_history := history; tool_calls := [];
         agent_outcome := PNone; tasks_updated := false |} in
    ainvoke initial_state in
  match turn w with
  | (Returns result, w') =>
      (Returns result, {| self_chat_history := chat_history result |}, w')
  | (Raises e, w') => (Raises e, self, w')
  end.

Definition clear_history (self : TaskAgent) : M TaskAgent :=
  h ← list_new []; mret {| self_chat_history := h |}.

(** The line [get_final_response] keeps for one item of the outcome. *)
Definition final_line (item : pyval) : res pyval :=
  response ← getitem item "response";
  st ← get response "status" PNone;
  if eq_str st "success"
  then get response "message" (PStr "Success")
  else get response "message" (PStr "Error").

Definition get_final_response (result : AgentState) : res string :=
  match agent_outcome result with
  | PStr s => Returns s
  | PList items =>
      responses ← map_res final_line items;
      lines ← strings_of responses;
      Returns (join nl lines)
  | _ => Returns "Task completed successfully."
  end.

End with_runtime.
End agent.
Export agent.

(** ** main.py: how the websocket endpoint words the agent's outcome *)

Module main.
Section with_runtime.
Context {R : Runtime}.

Definition is_dict (v : pyval) : bool :=
  match v with PDict _ => true | _ => false end.

(** [k in d] *)
Definition has_key (v : pyval) (k : string) : bool :=
  match v with
  | PDict d => match dict_get d k with Some _ => true | None => false end
  | _ => false
  end.

(** The lines the loop over the outcome appends for one item. *)
Definition tool_messages_of (item : pyval) : res (list string) :=
  tool_name ← get item "tool_name" (PStr "unknown_tool");
  response_data ← get item "response" (PDict []);
  status_msg ← get response_data "status" (PStr "unknown");
  message_msg ← get response_data "message" (PStr "No specific message.");
  let tool_feedback :=
    "Tool '" +:+ py_str tool_name +:+ "' executed: Status: "
    +:+ py_str status_msg +:+ ", Message: " +:+ py_str message_msg in
  if eq_str status_msg "success" && has_key response_data "task" then
    task_info ← getitem response_data "task";
    t ← get task_info "title" PNone;
    s ← get task_info "status" PNone;
    p ← get task_info "priority" PNone;
    let task_summary :=
      "Task details: Title: " +:+ py_str t +:+ ", Status: " +:+ py_str s
      +:+ ", Priority: " +:+ py_str p in
    i ← get task_info "id" PNone;
    if truthy i then
      i ← getitem task_info "id";
      Returns [tool_feedback; task_summary +:+ ", ID: " +:+ py_str i]
    else Returns [tool_feedback; task_summary]
  else Returns [tool_feedback].

(** [ai_response_content] as [websocket_endpoint] computes it from the
    final state of the graph. *)
Definition ai_response_content (agent_output : AgentState) : res string :=
  let outcome := agent_outcome agent_output in
  match outcome with
  | PStr s => Returns s
  | PList items =>
      if forallb is_dict items then
        tool_messages ← map_res tool_messages_of items;
        Returns (join nl (concat tool_messages))
      else Returns "The agent had an unexpected outcome."
  | _ => Returns "The agent had an unexpected outcome."
  end.

End with_runtime.
End main.
Export main.

(** ** A concrete runtime and scripted models, for running the code *)

Module scenario.

Definition digit_of (c : ascii) : option Z :=
  let n := nat_of_ascii c in
  if Nat.leb 48 n && Nat.leb n 57 then Some (Z.of_nat (n - 48)) else None.

(** A strict reading of [YYYY-MM-DD] as the number [YYYYMMDD]. *)
Definition strptime_strict (s : string) : option Z :=
  match s with
  | String y1 (String y2 (String y3 (String y4 (String "-"
      (String m1 (String m2 (String "-" (String d1 (String d2
         EmptyString))))))))) =>
      match digit_of y1, digit_of y2, digit_of y3, digit_of y4,
            digit_of m1, digit_of m2, digit_of d1, digit_of d2 with
      | Some a, Some b, Some c, Some d, Some e, Some f, Some g, Some h =>
          let month := 10 * e + f in
          let day := 10 * g + h in
          if Z.leb 1 month && Z.leb month 12 && Z.leb 1 day && Z.leb day 31
          then Some ((((a * 10 + b) * 10 + c) * 10 + d) * 10000
                     + month * 100 + day)
          else None
      | _, _, _, _, _, _, _, _ => None
      end
  | _ => None
  end.

Definition repr_brief (v : pyval) : string :=
  match v with
  | PList _ => "[...]"
  | PDict _ => "{...}"
  | _ => "<object>"
  end.

(** A database that never faults and a module whose imported names
    cannot be called. *)
#[export] Instance runtime0 : Runtime := {|
  strptime := strptime_strict;
  isoformat := str_int;
  repr := repr_brief;
  commit_fault := fun _ => None;
  extern_call := fun _ _ d =>
    (Raises (Exn TypeError "object is not callable"), d)
|}.

(** A model that answers the [n]-th call with the [n]-th entry of a
    script, and faults when the script is exhausted. *)
Definition scripted (script : list Response) : Model := {|
  llm_invoke := fun n _ =>
    match script !! n with
    | Some r => Returns r
    | None => Raises (Exn ModelInvocationError "model unreachable")
    end;
  recursion_limit := 25
|}.

Definition says (text : string) : Response :=
  {| content := text; resp_tool_calls := [] |}.

Definition asks (calls : list ToolCall) : Response :=
  {| content := EmptyString; resp_tool_calls := calls |}.

(** A model that answers every call with the same text. *)
Definition parrot (text : string) : Model := {|
  llm_invoke := fun _ _ => Returns (says text);
  recursion_limit := 25
|}.

Definition empty_db : db := {| rows := []; next_id := 1; db_now := 20250101 |}.

Definition world0 : World :=
  {| heap := [[]]; store := empty_db; llm_calls := 0; tool_log := [] |}.

Definition agent0 : TaskAgent := {| self_chat_history := 0 |}.

Definition milk : Task :=
  {| id := 1; title := "Buy milk"; description := None; status := TODO;
     due_date := None; priority := MEDIUM;
     created_at := 20250101; updated_at := 20250101 |}.

Definition milk_db : db :=
  {| rows := [milk]; next_id := 2; db_now := 20250102 |}.

Definition update_999 : ToolCall :=
  {| tc_name := "update_task";
     tc_args := [("task_id", PInt 999); ("new_status", PStr "done")];
     tc_id := "call_1" |}.

Definition create_milk : ToolCall :=
  {| tc_name := "create_task"; tc_args := [("title", PStr "buy milk")];
     tc_id := "call_1" |}.

(** A history that already ends with the user's text, as the websocket
    endpoint passes it to the workflow. *)
Definition seeded_world : World :=
  {| heap := [[HumanMessage "hi"]]; store := empty_db; llm_calls := 0;
     tool_log := [] |}.

Definition oat_milk : Task :=
  {| id := 2; title := "Try oat MILK"; description := None; status := TODO;
     due_date := None; priority := LOW;
     created_at := 20250102; updated_at := 20250102 |}.

Definition two_milks_db : db :=
  {| rows := [milk; oat_milk]; next_id := 3; db_now := 20250103 |}.

End scenario.
Export scenario.

(** ** The vocabulary of the properties *)

Module props.

(** A tool result is a Failure when its status is ["error"], a Success
    when it is ["success"]. *)
Definition is_failure (v : pyval) : bool :=
  match v with
  | PDict d => eq_str (default PNone (dict_get d "status")) "error"
  | _ => false
  end.

Definition is_success (v : pyval) : bool :=
  match v with
  | PDict d => eq_str (default PNone (dict_get d "status")) "success"
  | _ => false
  end.

(** Primary keys already handed out are below the next one. *)
Definition db_wf (d : db) : Prop :=
  Forall (fun r => id r < next_id d) (rows d).

(** An argument that is given and that its parser rejects. *)
Definition rejected {A : Type} (parse : string -> option A)
    (arg : option string) : Prop :=
  truthy_str arg = true /\ parse (default EmptyString arg) = None.

Definition parse_status (x : string) : option TaskStatus :=
  status_by_name (upper x).

Definition parse_priority (x : string) : option TaskPriority :=
  priority_by_name (upper x).

(** The record that [update_task] and [delete_task] resolve in a fresh
    session over [d]. *)
Definition resolved (task_id : option Z) (title_match : option string)
    (d : db) : option Task :=
  fst (tools.find_task task_id title_match (SessionLocal d)).

(** A task id that the database driver can pass to the store: none,
    or one of 64 bits. With a larger one the query itself raises, and
    the tools answer through their [except] clause. *)
Definition bindable (task_id : option Z) : Prop :=
  forall z, task_id = Some z -> - 2 ^ 63 <= z < 2 ^ 63.

(** The condition of that lookup: the primary key when [task_id] is
    truthy, else the title pattern when [title_match] is truthy. *)
Definition selects (task_id : option Z) (title_match : option string)
    (t : Task) : bool :=
  if truthy_int task_id then Z.eqb (id t) (default 0 task_id)
  else if truthy_str title_match then
    ilike (title t) ("%" +:+ default EmptyString title_match +:+ "%")
  else false.

(** A field of the task carried by a tool result. *)
Definition task_field (response : pyval) (k : string) : option pyval :=
  match response with
  | PDict d =>
      match dict_get d "task" with
      | Some (PDict t) => dict_get t k
      | _ => None
      end
  | _ => None
  end.

(** No [LIKE] wildcard in the text. *)
Fixpoint wildcard_free (s : string) : bool :=
  match s with
  | EmptyString => true
  | String c s' =>
      negb (Ascii.eqb c "%") && negb (Ascii.eqb c "_") && wildcard_free s'
  end.

(** *** What a tool step computes, told without the heap *)

Section pure_view.
Context {R : Runtime} {L : Model}.

(** The result [execute_tool] hands back, and the store afterwards. *)
Definition tool_outcome (tool_name : string) (tool_args : list (string * pyval))
    (d : db) : pyval * db :=
  match tools.invoke tool_name tool_args d with
  | (Returns v, d') => (v, d')
  | (Raises e, d') =>
      (tools.error_response ("Tool execution failed: " +:+ exn_str e), d')
  end.

(** The calls of one tool step, each with its result, in order. *)
Fixpoint tool_results (calls : list ToolCall) (d : db)
  : list (ToolCall * pyval) * db :=
  match calls with
  | [] => ([], d)
  | tc :: rest =>
      let '(v, d1) := tool_outcome (tc_name tc) (tc_args tc) d in
      let '(rs, d2) := tool_results rest d1 in
      ((tc, v) :: rs, d2)
  end.

Definition result_message (r : ToolCall * pyval) : Message :=
  ToolMessage (py_str (snd r)) (tc_id (fst r)).

Definition result_item (r : ToolCall * pyval) : pyval :=
  response_item (tc_name (fst r)) (snd r).

Definition result_entry (r : ToolCall * pyval) : string * pyval :=
  (tc_name (fst r), snd r).

(** The messages [call_model] sends to the model. *)
Definition messages_for (state : AgentState) (w : World) : list Message :=
  let h := deref (chat_history state) w in
  if input_missing h (input state)
  then h ++ [HumanMessage (input state)]
  else h.

(** [reaches k c c']: [k] steps of the workflow, none of which raises
    or ends the run, lead from [c] to [c']. *)
Inductive reaches
  : nat -> Node * AgentState * World -> Node * AgentState * World -> Prop :=
| reaches_here c : reaches 0 c c
| reaches_next k node state w node' state' w' c :
    step node state w = (Returns (Some node', state'), w') ->
    reaches k (node', state', w') c ->
    reaches (S k) (node, state, w) c.

(** [k] steps of the workflow as a function: the configuration they
    lead to, if none of them raises or ends the run. *)
Fixpoint advance (k : nat) (c : Node * AgentState * World)
  : option (Node * AgentState * World) :=
  match k with
  | O => Some c
  | S k' =>
      match step (fst (fst c)) (snd (fst c)) (snd c) with
      | (Returns (Some node', state'), w') => advance k' (node', state', w')
      | _ => None
      end
  end.

(** The state [process_input] starts the workflow from, once the stored
    history has been copied to the cell [history]. *)
Definition initial_state (user_input : string) (history : nat) : AgentState :=
  {| input := user_input; chat_history := history; tool_calls := [];
     agent_outcome := PNone; tasks_updated := false |}.

End pure_view.

(** The tool-call id a message answers, if it is a tool result. *)
Definition answered_call (m : Message) : option string :=
  match m with
  | ToolMessage _ tool_call_id => Some tool_call_id
  | _ => None
  end.

(** A logged tool execution that is a create, update or delete and
    that succeeded. *)
Definition mutation_succeeded (entry : string * pyval) : bool :=
  is_mutating (fst entry) && is_success (snd entry).

(** How many times the user message [text] occurs in a history. *)
Definition count_user (text : string) (history : list Message) : nat :=
  length (List.filter
            (fun m => match m with
                      | HumanMessage c => String.eqb c text
                      | _ => false
                      end) history).

(** *** The wording of a tool outcome, told per result *)

(** An item of the outcome list, for a tool result that is a dict. *)
Definition outcome_item (o : string * list (string * pyval)) : pyval :=
  response_item (fst o) (PDict (snd o)).

(** The line [get_final_response] has for a result: its message, or a
    word for its status when it has none. *)
Definition final_text (response : list (string * pyval)) : string :=
  match dict_get response "message" with
  | Some (PStr m) => m
  | _ =>
      if eq_str (default PNone (dict_get response "status")) "success"
      then "Success" else "Error"
  end.

(** The first line [websocket_endpoint] has for a result. *)
Definition feedback_line `{Runtime} (o : string * list (string * pyval))
  : string :=
  "Tool '" +:+ fst o +:+ "' executed: Status: "
  +:+ py_str (default (PStr "unknown") (dict_get (snd o) "status"))
  +:+ ", Message: "
  +:+ py_str (default (PStr "No specific message.")
                (dict_get (snd o) "message")).

(** Its second line, for a success that carries the task [t]. *)
Definition summary_line `{Runtime} (t : list (string * pyval)) : string :=
  let summary :=
    "Task details: Title: " +:+ py_str (default PNone (dict_get t "title"))
    +:+ ", Status: " +:+ py_str (default PNone (dict_get t "status"))
    +:+ ", Priority: " +:+ py_str (default PNone (dict_get t "priority")) in
  if truthy (default PNone (dict_get t "id"))
  then summary +:+ ", ID: " +:+ py_str (default PNone (dict_get t "id"))
  else summary.

Definition feedback_lines `{Runtime} (o : string * list (string * pyval))
  : list string :=
  match dict_get (snd o) "status", dict_get (snd o) "task" with
  | Some (PStr st), Some (PDict t) =>
      if String.eqb st "success"
      then [feedback_line o; summary_line t]
      else [feedback_line o]
  | _, _ => [feedback_line o]
  end.

(** The results the wording is specified for: a message, if present, is
    a string; a task, if present, is a dict. *)
Definition well_formed_result (o : string * list (string * pyval)) : Prop :=
  (forall v, dict_get (snd o) "message" = Some v -> exists m, v = PStr m) /\
  (forall v, dict_get (snd o) "task" = Some v -> exists t, v = PDict t).

End props.
Export props.

(** ** websocket.py *)

Module websocket.

(** What a call on a socket may raise. [RuntimeError] is what a closed
    socket raises; [ValueError] is what [list.remove] raises. *)
Inductive fault : Type := RuntimeError | ValueError | OtherError.

(** The sockets, an external collaborator: what [accept] and the send
    methods of a given socket raise, if anything. A socket is known by
    a number. *)
Class Sockets : Type := {
  accept_fault : nat -> option fault;
  send_fault : nat -> option fault
}.

(** The manager's list of connections, and what has been put on the
    wire: the socket and the payload of every send that went through. *)
Record Net : Type := mkNet {
  active_connections : list nat;
  wire : list (nat * pyval)
}.

(** [ConnectionManager()] *)
Definition init : Net := {| active_connections := []; wire := [] |}.

(** [l.remove(x)]: without the first occurrence of [x]; [None] is
    [ValueError]. *)
Fixpoint list_remove (x : nat) (l : list nat) : option (list nat) :=
  match l with
  | [] => None
  | y :: l' =>
      if Nat.eqb x y then Some l'
      else option_map (cons y) (list_remove x l')
  end.

Section with_sockets.
Context {K : Sockets}.

(** A call returns ([None]) or raises. *)
Definition connect (websocket : nat) (n : Net) : option fault * Net :=
  match accept_fault websocket with
  | Some e => (Some e, n)
  | None =>
      (None, {| active_connections := active_connections n ++ [websocket];
                wire := wire n |})
  end.

Definition disconnect (websocket : nat) (n : Net) : option fault * Net :=
  match list_remove websocket (active_connections n) with
  | None => (Some ValueError, n)
  | Some l => (None, {| active_connections := l; wire := wire n |})
  end.

(** [websocket.send_text(s)] and [websocket.send_json(v)] *)
Definition send (websocket : nat) (payload : pyval) (n : Net)
  : option fault * Net :=
  match send_fault websocket with
  | Some e => (Some e, n)
  | None =>
      (None, {| active_connections := active_connections n;
                wire := wire n ++ [(websocket, payload)] |})
  end.

Definition send_personal_message (message : string) (websocket : nat)
    (n : Net) : option fault * Net :=
  send websocket (PStr message) n.

(** The [for] loop of [broadcast_json]: the list iterator is an index
    into the list as it is at each step. The outer [None] is a loop that
    has used up [fuel] iterations without ending. *)
Fixpoint broadcast_loop (fuel index : nat) (data : pyval) (n : Net)
  : option (option fault * Net) :=
  match active_connections n !! index with
  | None => Some (None, n)
  | Some connection =>
      match fuel with
      | O => None
      | S fuel' =>
          match send connection data n with
          | (None, n) => broadcast_loop fuel' (S index) data n
          | (Some RuntimeError, n) =>
              match disconnect connection n with
              | (None, n) => broadcast_loop fuel' (S index) data n
              | (Some e, n) => Some (Some e, n)
              end
          | (Some e, n) => Some (Some e, n)
          end
      end
  end.

Definition broadcast_json (data : pyval) (n : Net)
  : option (option fault * Net) :=
  broadcast_loop (length (active_connections n)) 0 data n.

End with_sockets.
End websocket.

(** ** main.py: the [/tasks] route *)

Module routes.
Section with_runtime.
Context {R : Runtime}.

(** Modelled from the spec: [app.database.get_db] is not among the
    sources; it is taken to hand a fresh session to the request. *)
Definition get_db (d : db) : Session := SessionLocal d.

Definition task_entry (t : Task) : pyval :=
  PDict [ ("id", PInt (id t));
          ("title", PStr (title t));
          ("description", of_opt_str (description t));
          ("status", PStr (status_value (status t)));
          ("due_date",
            if due_date t is Some d then PStr (isoformat d) else PNone);
          ("priority", PStr (priority_value (priority t)));
          ("created_at", PStr (isoformat (created_at t)));
          ("updated_at", PStr (isoformat (updated_at t))) ].

Definition get_all_tasks (d : db) : pyval * db :=
  let s := get_db d in
  let tasks := order_by_created_desc (rows (bind s)) in
  let tasks_data := fold_left (fun acc t => acc ++ [task_entry t]) tasks [] in
  (PDict [("tasks", PList tasks_data)], close s).

End with_runtime.
End routes.

(** ** More vocabulary *)

Module more_props.

(** Primary keys are below the next one and distinct. *)
Definition store_ok (d : db) : Prop :=
  db_wf d /\ NoDup (map id (rows d)).

(** [s.isascii()]: every character is below 128. On such a text
    [upper] and [lower] are Python's. *)
Fixpoint isascii (s : string) : bool :=
  match s with
  | EmptyString => true
  | String c s' => Nat.ltb (nat_of_ascii c) 128 && isascii s'
  end.

(** How a tool reads an optional argument: as nothing when it is not
    truthy, as [x] when it is truthy and parses to [x]. *)
Definition reads {A : Type} (parse : string -> option A)
    (arg : option string) (v : option A) : Prop :=
  match v with
  | None => truthy_str arg = false
  | Some x =>
      truthy_str arg = true /\ parse (default EmptyString arg) = Some x
  end.

(** Newest first. *)
Definition newest_first (tasks : list Task) : Prop :=
  StronglySorted (fun a b => created_at b <= created_at a) tasks.

(** The task a successful update leaves in memory. *)
Definition updated_task (t : Task) (new_title new_description : option string)
    (st : option TaskStatus) (dd : option Z) (pr : option TaskPriority)
  : Task :=
  {| id := id t;
     title := if truthy_str new_title
              then default EmptyString new_title else title t;
     description := if truthy_str new_description
                    then new_description else description t;
     status := default (status t) st;
     due_date := if dd is Some v then Some v else due_date t;
     priority := default (priority t) pr;
     created_at := created_at t;
     updated_at := updated_at t |}.

(** The row written for it: unchanged when nothing changed, else with a
    new [updated_at]. *)
Definition stamped (now : Z) (before after : Task) : Task :=
  if bool_decide (after = before) then before
  else {| id := id after; title := title after;
          description := description after; status := status after;
          due_date := due_date after; priority := priority after;
          created_at := created_at after; updated_at := now |}.

(** The parameters in the [def] line of each registered tool. *)
Definition signature (tool_name : string) : list string :=
  if String.eqb tool_name "create_task"
  then ["title"; "description"; "due_date"; "priority"]
  else if String.eqb tool_name "update_task"
  then ["task_id"; "title_match"; "new_title"; "new_description";
        "new_status"; "new_due_date"; "new_priority"]
  else if String.eqb tool_name "delete_task" then ["task_id"; "title_match"]
  else if String.eqb tool_name "filter_tasks"
  then ["status"; "priority"; "due_date_before"; "due_date_after"]
  else [].

(** Reading a history from its start with the tool calls still to be
    answered: a tool message must answer the first of them, any other
    message must find none pending, and a model message makes its tool
    calls pending. [None] is a history that breaks this. *)
Fixpoint pending_after (pending : list string) (h : list Message)
  : option (list string) :=
  match h with
  | [] => Some pending
  | ToolMessage _ i :: h' =>
      match pending with
      | p :: ps => if String.eqb p i then pending_after ps h' else None
      | [] => None
      end
  | HumanMessage _ :: h' =>
      match pending with
      | [] => pending_after [] h'
      | _ :: _ => None
      end
  | AIMessage _ calls :: h' =>
      match pending with
      | [] => pending_after (map tc_id calls) h'
      | _ :: _ => None
      end
  end.

(** Every tool call in the history is answered, in order, right after
    the model message that made it, and every tool message answers one. *)
Definition well_answered (h : list Message) : Prop :=
  pending_after [] h = Some [].

(** The tool calls that are still to be answered when a node is about
    to run. *)
Definition pending_at (node : Node) (state : AgentState) : list string :=
  match node with
  | model => []
  | tool => map tc_id (tool_calls state)
  end.

(** What a broadcast over distinct connections comes to: the
    connections kept, those that received the data, and the fault that
    ended it early, if any. After a connection whose send raises
    [RuntimeError] the next one is passed over. *)
Fixpoint sweep `{websocket.Sockets} (l : list nat)
  : list nat * list nat * option websocket.fault :=
  match l with
  | [] => ([], [], None)
  | c :: rest =>
      match websocket.send_fault c with
      | None =>
          let '(kept, got, e) := sweep rest in (c :: kept, c :: got, e)
      | Some websocket.RuntimeError =>
          match rest with
          | [] => ([], [], None)
          | d :: rest' =>
              let '(kept, got, e) := sweep rest' in (d :: kept, got, e)
          end
      | Some e => (c :: rest, [], Some e)
      end
  end.

End more_props.
Export more_props.

(** ** More to run the code on *)

Module more_scenario.

(** Sockets 1 and 2 are closed, the others are open. *)
Definition two_closed : websocket.Sockets := {|
  websocket.accept_fault := fun _ => None;
  websocket.send_fault := fun ws =>
    if Nat.eqb ws 1 || Nat.eqb ws 2 then Some websocket.RuntimeError
    else None
|}.

Definition all_open : websocket.Sockets := {|
  websocket.accept_fault := fun _ => None;
  websocket.send_fault := fun _ => None
|}.

Definition refresh_payload : pyval :=
  PDict [("type", PStr "task_list_update"); ("tasks", PList [])].

Definition three_sockets : websocket.Net :=
  {| websocket.active_connections := [1; 2; 3]%nat; websocket.wire := [] |}.

Definition hi_state : AgentState :=
  {| input := "hi"; chat_history := 0; agent_outcome := PNone;
     tool_calls := []; tasks_updated := false |}.

Definition list_call : ToolCall :=
  {| tc_name := "list_tasks"; tc_args := []; tc_id := "call_2" |}.

End more_scenario.
Export more_scenario.

(** * Properties *)

(** ** The scenarios of the specification, run *)

(** Scenario A: "add a task to buy milk". The model asks for a create,
    hears the result and answers; the task is stored with status todo
    and priority medium, and the turn ends with the flag set. *)
Example scenario_A :
  exists result self' w',
    process_input (L := scripted [asks [create_milk]; says "Added."])
      agent0 "add a task to buy milk" world0 = (Returns result, self', w') /\
    agent_outcome result = PStr "Added." /\
    tasks_updated result = true /\
    map (fun t => (title t, status t, priority t)) (rows (store w'))
    = [("buy milk", TODO, MEDIUM)] /\
    map answered_call (deref (self_chat_history self') w')
    = [None; None; Some "call_1"; None; None].
Proof. do 3 eexists. vm_compute. repeat split. Qed.

(** Scenario B: "list all tasks" on the empty store. *)
Example scenario_B :
  exists u w',
    call_tool
      {| input := "list all tasks"; chat_history := 0; agent_outcome := PNone;
         tool_calls := [ {| tc_name := "list_tasks"; tc_args := [];
                            tc_id := "call_1" |} ];
         tasks_updated := false |} world0 = (Returns u, w') /\
    t_agent_outcome u
    = PList [response_item "list_tasks"
               (PDict [("status", PStr "success"); ("tasks", PList [])])] /\
    t_tasks_updated u = false.
Proof. do 2 eexists. vm_compute. repeat split. Qed.

(** Scenario D: a typo in the priority of a create. *)
Example scenario_D :
  tools.create_task "buy milk" None None (Some "urgentt") empty_db
  = (tools.error_response
       ("Invalid priority: urgentt. Must be one of "
        +:+ priority_list_str +:+ "."), empty_db).
Proof. reflexivity. Qed.

(** ** The tools and the record store *)

Section tools_facts.
Context {R : Runtime}.

Lemma find_task_bind task_id title_match s :
  bind (snd (tools.find_task task_id title_match s)) = bind s.
Proof.
  unfold tools.find_task, query_first.
  repeat case_match; reflexivity.
Qed.

Lemma rejected_parse_if_given {A : Type} (parse : string -> option A)
    (arg : option string) (otherwise : option A) :
  rejected parse arg ->
  tools.parse_if_given arg (fun x => option_map Some (parse x)) otherwise
  = None.
Proof.
  intros [Ht Hp]. destruct arg as [[|c rest]|]; try discriminate.
  cbn in *. now rewrite Hp.
Qed.

Lemma rejected_priority_default (arg : option string) :
  rejected parse_priority arg ->
  tools.parse_if_given arg (fun x => priority_by_name (upper x)) MEDIUM = None.
Proof.
  intros [Ht Hp]. destruct arg as [[|c rest]|]; try discriminate.
  exact Hp.
Qed.

Lemma find_task_some task_id title_match s0 t s :
  tools.find_task task_id title_match s0 = (Some t, s) ->
  In t (rows (bind s0)) /\
  s = {| bind := bind s0; loaded := loaded s0 ++ [t];
         added := added s0; deleted := deleted s0 |}.
Proof.
  unfold tools.find_task, query_first.
  repeat case_match; intros; simplify_eq; split; try reflexivity;
    eapply find_some; eassumption.
Qed.

Lemma find_task_none task_id title_match s0 s :
  tools.find_task task_id title_match s0 = (None, s) -> s = s0.
Proof.
  unfold tools.find_task, query_first.
  repeat case_match; intros; simplify_eq; reflexivity.
Qed.

Lemma find_last_some {A : Type} (f : A -> bool) (l : list A) (x : A) :
  f x = true -> find f (l ++ [x]) <> None.
Proof.
  intros Hx. induction l as [|y l IH]; cbn.
  - now rewrite Hx.
  - destruct (f y); [discriminate | exact IH].
Qed.

Lemma find_by_id_some (rs : list Task) (key : Z) :
  (exists r, In r rs /\ id r = key) ->
  find (fun r => Z.eqb (id r) key) rs <> None.
Proof.
  intros (r & Hin & Hid) Hnone.
  pose proof (find_none _ _ Hnone r Hin) as Hr. cbn in Hr.
  rewrite Hid, Z.eqb_refl in Hr. discriminate.
Qed.

Lemma update_row_id now objs r : id (update_row now objs r) = id r.
Proof.
  unfold update_row.
  destruct (find _ (rev objs)) as [o|] eqn:Hf; [|reflexivity].
  apply find_some in Hf as [_ Ho]. apply Z.eqb_eq in Ho.
  case_bool_decide; [reflexivity | exact Ho].
Qed.

(** With nothing added and nothing deleted, a flush keeps every row
    under its primary key. *)
Lemma refresh_after_flush (s : Session) (key : Z) :
  added s = [] -> deleted s = [] ->
  (exists r, In r (rows (bind s)) /\ id r = key) ->
  refresh key (SessionLocal (flushed s)) <> None.
Proof.
  intros Ha Hd (r & Hin & Hid). unfold refresh, flushed.
  rewrite Ha, Hd. cbn. apply find_by_id_some.
  exists (update_row (db_now (bind s)) (loaded s) r). split.
  - apply filter_In. split; [|reflexivity].
    apply in_map. exact Hin.
  - now rewrite update_row_id.
Qed.

(** The row just inserted can be read back. *)
Lemma refresh_after_add (d : db) (n : NewTask) :
  refresh (next_id d) (SessionLocal (flushed (add n (SessionLocal d))))
  <> None.
Proof.
  unfold refresh, flushed. cbn. apply find_last_some.
  cbn. apply Z.eqb_refl.
Qed.

(** A Failure of [create_task] leaves the store as it was, whatever the
    reason of the failure. *)
Lemma create_task_failure_keeps_store title description due_date priority d :
  is_failure (fst (tools.create_task title description due_date priority d))
  = true ->
  snd (tools.create_task title description due_date priority d) = d.
Proof.
  unfold tools.create_task, tools.create_task_try, tools.commit.
  destruct (tools.parse_if_given due_date _ None) as [parsed_due_date|];
    [|reflexivity].
  destruct (tools.parse_if_given priority _ MEDIUM) as [parsed_priority|];
    [|reflexivity].
  destruct (commit_fault _); [reflexivity|].
  cbn [tools.get_db_session_for_tool SessionLocal added bind length].
  rewrite Z.add_0_r.
  match goal with
  | |- context [refresh (next_id d) ?s] =>
      destruct (refresh (next_id d) s) as [t|] eqn:Hr
  end.
  - cbn. discriminate.
  - now apply refresh_after_add in Hr.
Qed.

(** So does a Failure of [update_task]: what was assigned to the loaded
    task is dropped with the session. *)
Lemma update_task_failure_keeps_store task_id title_match new_title
    new_description new_status new_due_date new_priority d :
  is_failure (fst (tools.update_task task_id title_match new_title
                     new_description new_status new_due_date new_priority d))
  = true ->
  snd (tools.update_task task_id title_match new_title new_description
         new_status new_due_date new_priority d) = d.
Proof.
  unfold tools.update_task, tools.update_task_try, tools.commit,
    tools.get_db_session_for_tool.
  destruct (tools.find_task task_id title_match (SessionLocal d))
    as [[task|] s] eqn:Hf.
  2: { apply find_task_none in Hf. now subst. }
  apply find_task_some in Hf as [Hin ->]. cbn in Hin.
  unfold tools.assign.
  destruct (truthy_str new_title), (truthy_str new_description);
    (destruct (tools.parse_if_given new_status _ None) as [[st|]|];
       [| |reflexivity]);
    (destruct (tools.parse_if_given new_due_date _ None) as [[dd|]|];
       [| |reflexivity]);
    (destruct (tools.parse_if_given new_priority _ None) as [[pr|]|];
       [| |reflexivity]);
    (destruct (commit_fault _); [reflexivity|]);
    match goal with
    | |- context [refresh ?k ?s] =>
        destruct (refresh k s) as [t|] eqn:Hr;
        [ cbn; discriminate
        | exfalso; revert Hr; apply refresh_after_flush;
          [reflexivity | reflexivity | exists task; split; [exact Hin | reflexivity]] ]
    end.
Qed.

Lemma update_row_nothing_loaded now rs : map (update_row now []) rs = rs.
Proof. induction rs as [|r rs IH]; cbn; [|rewrite IH]; reflexivity. Qed.

Lemma filter_all {A : Type} (l : list A) : List.filter (fun _ => true) l = l.
Proof. induction l as [|x l IH]; cbn; [|rewrite IH]; reflexivity. Qed.

Lemma find_fresh_key (rs : list Task) (t : Task) (bound : Z) :
  Forall (fun r => id r < bound) rs -> id t = bound ->
  find (fun r => Z.eqb (id r) bound) (rs ++ [t]) = Some t.
Proof.
  intros Hwf Ht. induction Hwf as [|r rs Hr _ IH]; cbn.
  - now rewrite Ht, Z.eqb_refl.
  - destruct (Z.eqb_spec (id r) bound); [lia | exact IH].
Qed.

Lemma resolved_find task_id title_match d :
  resolved task_id title_match d
  = find (selects task_id title_match) (rows d).
Proof.
  unfold resolved, tools.find_task, selects, query_first. cbn.
  destruct (truthy_int task_id).
  - now destruct (find _ (rows d)).
  - destruct (truthy_str title_match).
    + now destruct (find _ (rows d)).
    + cbn. now induction (rows d).
Qed.

Lemma find_first {A : Type} (f : A -> bool) (l : list A) (x : A) :
  find f l = Some x ->
  exists before after,
    l = before ++ x :: after /\ f x = true /\
    Forall (fun y => f y = false) before.
Proof.
  induction l as [|y l IH]; cbn; [discriminate|].
  destruct (f y) eqn:Hy.
  - intros [= ->]. exists [], l. repeat split; [exact Hy | constructor].
  - intros Hf. destruct (IH Hf) as (before & after & -> & Hx & Hb).
    exists (y :: before), after. repeat split; [exact Hx|].
    constructor; assumption.
Qed.

(** *** [LIKE] against [%text%] *)

Lemma like_anything (s : string) : like "%" s = true.
Proof.
  cbn. induction s as [|c s IH]; [reflexivity|].
  cbn. exact IH.
Qed.

Lemma like_prefix (q s : string) :
  wildcard_free q = true -> like (q +:+ "%") s = String.prefix q s.
Proof.
  revert s. induction q as [|c q IH]; intros s Hq.
  - change (EmptyString +:+ "%") with "%".
    rewrite (like_anything s). now destruct s.
  - cbn in Hq. apply andb_true_iff in Hq as [Hc Hq].
    apply andb_true_iff in Hc as [Hp Hu].
    apply negb_true_iff in Hp, Hu.
    change (String c q +:+ "%") with (String c (q +:+ "%")).
    cbn [like]. rewrite Hp, Hu.
    destruct s as [|d s]; [reflexivity|].
    cbn [String.prefix]. rewrite (IH s Hq).
    destruct (Ascii.eqb_spec c d) as [->|Hne].
    + now destruct (ascii_dec d d).
    + now destruct (ascii_dec c d).
Qed.

Lemma like_percent (pat s : string) :
  like (String "%" pat) s
  = like pat s ||
    match s with
    | EmptyString => false
    | String _ s' => like (String "%" pat) s'
    end.
Proof. destruct s; reflexivity. Qed.

Lemma like_contains (q s : string) :
  wildcard_free q = true -> like ("%" +:+ q +:+ "%") s = contains s q.
Proof.
  intros Hq. change ("%" +:+ q +:+ "%") with (String "%" (q +:+ "%")).
  induction s as [|c s IH]; rewrite like_percent, like_prefix by exact Hq.
  - reflexivity.
  - cbn [contains]. now rewrite IH.
Qed.

Lemma lower_app (a b : string) : lower (a +:+ b) = lower a +:+ lower b.
Proof.
  unfold lower. induction a as [|c a IH]; [reflexivity|].
  change (map_chars lower_ascii (String c a +:+ b))
    with (String (lower_ascii c) (map_chars lower_ascii (a +:+ b))).
  now rewrite IH.
Qed.

Lemma lower_ascii_keeps_wildcards (c : ascii) :
  Ascii.eqb (lower_ascii c) "%" = Ascii.eqb c "%" /\
  Ascii.eqb (lower_ascii c) "_" = Ascii.eqb c "_".
Proof.
  destruct c as [[] [] [] [] [] [] [] []]; split; reflexivity.
Qed.

Lemma wildcard_free_lower (s : string) :
  wildcard_free (lower s) = wildcard_free s.
Proof.
  unfold lower. induction s as [|c s IH]; [reflexivity|].
  cbn [map_chars wildcard_free].
  destruct (lower_ascii_keeps_wildcards c) as [-> ->].
  now rewrite IH.
Qed.

(** Without wildcards in the text, the title pattern is a substring
    test that ignores case. *)
Lemma ilike_substring (column text : string) :
  wildcard_free text = true ->
  ilike column ("%" +:+ text +:+ "%") = contains (lower column) (lower text).
Proof.
  intros Hq. unfold ilike. rewrite !lower_app.
  change (lower "%") with "%".
  apply like_contains. now rewrite wildcard_free_lower.
Qed.

End tools_facts.

Section tools_claims.
Context {R : Runtime}.

(** C8. A create or update that fails on an invalid date, status or
    priority is a Failure and leaves the record store exactly as it
    was: nothing is inserted, and what [update_task] had already
    assigned to the loaded task is not persisted. *)
Theorem invalid_value_persists_nothing :
  (forall title description due_date priority d,
     rejected strptime due_date \/ rejected parse_priority priority ->
     is_failure (fst (tools.create_task title description due_date
                        priority d)) = true /\
     snd (tools.create_task title description due_date priority d) = d) /\
  (forall task_id title_match new_title new_description new_status
          new_due_date new_priority d,
     rejected parse_status new_status \/ rejected strptime new_due_date \/
     rejected parse_priority new_priority ->
     is_failure (fst (tools.update_task task_id title_match new_title
                        new_description new_status new_due_date
                        new_priority d)) = true /\
     snd (tools.update_task task_id title_match new_title new_description
            new_status new_due_date new_priority d) = d).
Proof.
  split.
  - intros title description due_date priority d Hbad.
    assert (is_failure (fst (tools.create_task title description due_date
                               priority d)) = true) as Hfail.
    { unfold tools.create_task, tools.create_task_try.
      destruct Hbad as [Hd|Hp].
      - now rewrite (rejected_parse_if_given _ _ None Hd).
      - rewrite (rejected_priority_default _ Hp).
        now destruct (tools.parse_if_given due_date _ None). }
    split; [exact Hfail|].
    now apply create_task_failure_keeps_store.
  - intros task_id title_match new_title new_description new_status
      new_due_date new_priority d Hbad.
    assert (is_failure (fst (tools.update_task task_id title_match new_title
                               new_description new_status new_due_date
                               new_priority d)) = true) as Hfail.
    { unfold tools.update_task, tools.update_task_try, tools.assign.
      destruct (tools.find_task task_id title_match _) as [[task|] s];
        [|reflexivity].
      pose proof (rejected_parse_if_given parse_status new_status None) as Hs.
      pose proof (rejected_parse_if_given strptime new_due_date None) as Hd.
      pose proof (rejected_parse_if_given parse_priority new_priority None)
        as Hp.
      unfold parse_status, parse_priority in Hs, Hp.
      destruct (truthy_str new_title), (truthy_str new_description);
        destruct Hbad as [Hbad|[Hbad|Hbad]];
        first
          [ rewrite (Hs Hbad); reflexivity
          | rewrite (Hd Hbad);
            destruct (tools.parse_if_given new_status _ None) as [[?|]|];
            reflexivity
          | rewrite (Hp Hbad);
            destruct (tools.parse_if_given new_status _ None) as [[?|]|];
            try reflexivity;
            destruct (tools.parse_if_given new_due_date _ None) as [[?|]|];
            reflexivity ]. }
    split; [exact Hfail|].
    now apply update_task_failure_keeps_store.
Qed.

Lemma parse_if_given_absent {A : Type} (arg : option string)
    (parse : string -> option A) (otherwise : A) :
  truthy_str arg = false ->
  tools.parse_if_given arg parse otherwise = Some otherwise.
Proof. now destruct arg as [[|c rest]|]. Qed.

(** C7, as amended. A create call with a title, no due date and no
    priority succeeds on a store that does not fault, and the task it
    stores and reports has priority medium and status todo. *)
Theorem create_task_defaults title description due_date priority d :
  db_wf d ->
  truthy_str due_date = false ->
  truthy_str priority = false ->
  (forall s, commit_fault s = None) ->
  exists t response,
    tools.create_task title description due_date priority d
    = (response,
       {| rows := rows d ++ [t]; next_id := next_id d + 1;
          db_now := db_now d |}) /\
    is_success response = true /\
    models.title t = title /\
    models.priority t = MEDIUM /\ models.status t = TODO /\
    task_field response "priority" = Some (PStr "medium") /\
    task_field response "status" = Some (PStr "todo").
Proof.
  intros Hwf Hdue Hprio Hcommit.
  unfold tools.create_task, tools.create_task_try, tools.commit.
  rewrite (parse_if_given_absent due_date _ None Hdue).
  rewrite (parse_if_given_absent priority _ MEDIUM Hprio).
  rewrite Hcommit.
  unfold refresh, flushed. cbn -[Z.add].
  rewrite update_row_nothing_loaded, filter_all, Z.add_0_r.
  set (t := {| id := next_id d; title := title; description := description;
               status := TODO; due_date := None; priority := MEDIUM;
               created_at := db_now d; updated_at := db_now d |}).
  rewrite (find_fresh_key (rows d) t (next_id d) Hwf eq_refl).
  exists t. eexists. split; [reflexivity|].
  repeat split; reflexivity.
Qed.

End tools_claims.

(** C8 at work: a typo in the priority of a create, and a typo in the
    status of an update that also renames the task. *)
Lemma invalid_value_persists_nothing_witness :
  (is_failure (fst (tools.create_task "buy milk" None None (Some "urgentt")
                      empty_db)) = true /\
   snd (tools.create_task "buy milk" None None (Some "urgentt") empty_db)
   = empty_db) /\
  (is_failure (fst (tools.update_task None (Some "milk") (Some "Buy bread")
                      None (Some "donee") None None milk_db)) = true /\
   snd (tools.update_task None (Some "milk") (Some "Buy bread") None
          (Some "donee") None None milk_db) = milk_db).
Proof.
  split.
  - apply (proj1 invalid_value_persists_nothing).
    right. split; reflexivity.
  - apply (proj2 invalid_value_persists_nothing).
    left. split; reflexivity.
Defined.

(** C7 at work on the empty store. *)
Lemma create_task_defaults_witness :
  exists t response,
    tools.create_task "buy milk" None None None empty_db
    = (response,
       {| rows := rows empty_db ++ [t]; next_id := next_id empty_db + 1;
          db_now := db_now empty_db |}) /\
    is_success response = true /\
    models.title t = "buy milk" /\
    models.priority t = MEDIUM /\ models.status t = TODO /\
    task_field response "priority" = Some (PStr "medium") /\
    task_field response "status" = Some (PStr "todo").
Proof.
  apply (create_task_defaults "buy milk" None None None empty_db).
  - constructor.
  - reflexivity.
  - reflexivity.
  - intros s. reflexivity.
Defined.

(** C7 as stated fails: a create call with a title and no due date may
    name a priority, and the task then has that priority. *)
Lemma create_task_with_priority_not_medium :
  ~ (forall title description priority d,
       is_success (fst (tools.create_task title description None priority d))
       = true ->
       task_field (fst (tools.create_task title description None priority d))
         "priority" = Some (PStr "medium")).
Proof.
  intros H.
  specialize (H "buy milk" None (Some "high") empty_db eq_refl).
  vm_compute in H. discriminate.
Qed.

(** ** The agent: what its nodes compute *)

Section agent_facts.
Context {R : Runtime} {L : Model}.

Lemma alter_last {A : Type} (f : A -> A) (h : list A) (x : A) :
  alter f (length h) (h ++ [x]) = h ++ [f x].
Proof. induction h as [|y h IH]; cbn; [|rewrite IH]; reflexivity. Qed.

Lemma deref_last h l d n lg :
  deref (length h)
    {| heap := h ++ [l]; store := d; llm_calls := n; tool_log := lg |} = l.
Proof.
  unfold deref. cbn. rewrite lookup_app_r by lia.
  now rewrite Nat.sub_diag.
Qed.

(** [execute_tool] always returns: whatever the call raises becomes a
    Failure; only the store can have changed. *)
Lemma execute_tool_spec tool_name tool_args w :
  execute_tool tool_name tool_args w
  = (Returns (fst (tool_outcome tool_name tool_args (store w))),
     {| heap := heap w;
        store := snd (tool_outcome tool_name tool_args (store w));
        llm_calls := llm_calls w; tool_log := tool_log w |}).
Proof.
  unfold execute_tool, try_except, tool_func, tool_outcome, mbind, M_bind,
    mret, M_ret.
  destruct (tools.invoke tool_name tool_args (store w)) as [[v|e] d'];
    reflexivity.
Qed.

Lemma call_tool_body_spec h l d n lg responses flag tc :
  call_tool_body (length h) (responses, flag) tc
    {| heap := h ++ [l]; store := d; llm_calls := n; tool_log := lg |}
  = (Returns
       (responses
        ++ [response_item (tc_name tc)
              (fst (tool_outcome (tc_name tc) (tc_args tc) d))],
        is_mutating (tc_name tc) || flag),
     {| heap :=
          h ++ [l ++ [ToolMessage
                        (py_str (fst (tool_outcome (tc_name tc) (tc_args tc) d)))
                        (tc_id tc)]];
        store := snd (tool_outcome (tc_name tc) (tc_args tc) d);
        llm_calls := n;
        tool_log :=
          lg ++ [(tc_name tc,
                  fst (tool_outcome (tc_name tc) (tc_args tc) d))] |}).
Proof.
  unfold call_tool_body, try_except, mbind, M_bind.
  rewrite execute_tool_spec.
  unfold log_result, list_append, mret, M_ret. cbn.
  rewrite alter_last. now destruct (is_mutating (tc_name tc)).
Qed.

Lemma for_each_call_tool_body calls :
  forall h l d n lg responses flag,
    for_each calls (call_tool_body (length h)) (responses, flag)
      {| heap := h ++ [l]; store := d; llm_calls := n; tool_log := lg |}
    = (Returns
         (responses ++ map result_item (fst (tool_results calls d)),
          existsb is_mutating (map tc_name calls) || flag),
       {| heap := h ++ [l ++ map result_message (fst (tool_results calls d))];
          store := snd (tool_results calls d);
          llm_calls := n;
          tool_log := lg ++ map result_entry (fst (tool_results calls d)) |}).
Proof.
  induction calls as [|tc calls IH]; intros h l d n lg responses flag.
  - cbn. now rewrite !app_nil_r.
  - cbn [for_each]. unfold mbind, M_bind.
    rewrite call_tool_body_spec.
    fold (@mbind M M_bind). unfold mbind, M_bind in IH. rewrite IH.
    cbn [tool_results map existsb].
    destruct (tool_outcome (tc_name tc) (tc_args tc) d) as [v d1].
    cbn [fst snd].
    destruct (tool_results calls d1) as [rs d2].
    cbn [fst snd map]. rewrite <- !app_assoc. cbn [app].
    unfold result_item, result_message, result_entry. cbn [fst snd].
    now rewrite orb_assoc, (orb_comm (existsb _ _)).
Qed.

(** The whole tool node: a fresh cell holds the history followed by one
    tool message per call, in the order of the calls. *)
Lemma call_tool_spec state w :
  call_tool state w
  = (Returns
       {| t_agent_outcome :=
            PList (map result_item
                     (fst (tool_results (tool_calls state) (store w))));
          t_tasks_updated := existsb is_mutating (map tc_name (tool_calls state));
          t_chat_history := length (heap w) |},
     {| heap :=
          heap w
          ++ [deref (chat_history state) w
              ++ map result_message
                   (fst (tool_results (tool_calls state) (store w)))];
        store := snd (tool_results (tool_calls state) (store w));
        llm_calls := llm_calls w;
        tool_log :=
          tool_log w
          ++ map result_entry
               (fst (tool_results (tool_calls state) (store w))) |}).
Proof.
  unfold call_tool, list_copy, list_get, list_new, mbind, M_bind. cbn.
  pose proof (for_each_call_tool_body (tool_calls state) (heap w)
                (deref (chat_history state) w) (store w) (llm_calls w)
                (tool_log w) [] false) as Hloop.
  cbn in Hloop. rewrite Hloop. cbn.
  now rewrite orb_false_r.
Qed.

Lemma tool_results_calls calls :
  forall d, map fst (fst (tool_results calls d)) = calls.
Proof.
  induction calls as [|tc calls IH]; intros d; [reflexivity|].
  cbn. destruct (tool_outcome _ _ d) as [v d1].
  specialize (IH d1). destruct (tool_results calls d1) as [rs d2].
  cbn in *. now rewrite IH.
Qed.

Lemma tool_calls_rebuilt (calls : list ToolCall) :
  map (fun tc => {| tc_name := tc_name tc; tc_args := tc_args tc;
                    tc_id := tc_id tc |}) calls = calls.
Proof.
  induction calls as [|[name args i] calls IH]; cbn; [|rewrite IH];
    reflexivity.
Qed.

(** The model node: one cell for the messages sent, and, when the model
    answers, one more for the history with its answer. *)
Lemma call_model_spec state w :
  call_model state w
  = let sent := messages_for state w in
    let after heap' :=
      {| heap := heap'; store := store w; llm_calls := S (llm_calls w);
         tool_log := tool_log w |} in
    match llm_invoke (llm_calls w) sent with
    | Raises e => (Raises e, after (heap w ++ [sent]))
    | Returns response =>
        (Returns
           {| m_agent_outcome :=
                match resp_tool_calls response with
                | [] => PStr (content response)
                | _ :: _ => PNone
                end;
              m_tool_calls := resp_tool_calls response;
              m_chat_history := S (length (heap w)) |},
         after (heap w
                ++ [sent;
                    sent ++ [AIMessage (content response)
                               (resp_tool_calls response)]]))
    end.
Proof.
  unfold call_model, messages_for, list_copy, list_get, list_new,
    list_append, invoke_llm, mbind, M_bind, mret, M_ret.
  cbn. rewrite deref_last.
  set (h := deref (chat_history state) w).
  destruct (input_missing h (input state)); cbn;
    rewrite ?alter_last, ?deref_last;
    (destruct (llm_invoke (llm_calls w) _) as [response|e]; cbn;
       [|reflexivity]);
    destruct (resp_tool_calls response) as [|[name args i] tcs]; cbn;
    rewrite ?alter_last, ?tool_calls_rebuilt, ?length_app, <- ?app_assoc;
    cbn; rewrite ?Nat.add_1_r; reflexivity.
Qed.

(** *** The heap only grows

    Every node works on copies: it allocates cells and appends to the
    cells it has allocated. *)

Lemma step_grows node state w r w' :
  step node state w = (r, w') -> exists extra, heap w' = heap w ++ extra.
Proof.
  destruct node; unfold step, mbind, M_bind.
  - rewrite call_model_spec. cbv zeta.
    destruct (llm_invoke _ _) as [response|e]; intros [= <- <-];
      eexists; reflexivity.
  - rewrite call_tool_spec. intros [= <- <-]. eexists; reflexivity.
Qed.

Lemma run_grows steps :
  forall node state w r w',
    run steps node state w = (r, w') ->
    exists extra, heap w' = heap w ++ extra.
Proof.
  induction steps as [|steps IH]; intros node state w r w'.
  - intros [= <- <-]. exists []. now rewrite app_nil_r.
  - cbn [run]. unfold mbind, M_bind.
    destruct (step node state w) as [[[next state1]|e] w1] eqn:Hstep.
    + apply step_grows in Hstep as [extra1 H1].
      destruct next as [node1|].
      * intros Hrun. apply IH in Hrun as [extra2 H2].
        exists (extra1 ++ extra2). now rewrite H2, H1, app_assoc.
      * intros [= <- <-]. now exists extra1.
    + apply step_grows in Hstep. now intros [= <- <-].
Qed.

Lemma deref_grows r w w' extra :
  (r < length (heap w))%nat -> heap w' = heap w ++ extra ->
  deref r w' = deref r w.
Proof.
  intros Hr He. unfold deref. now rewrite He, lookup_app_l.
Qed.

(** *** Runs *)

Lemma run_reaches k c c' :
  reaches k c c' ->
  forall steps, (k <= steps)%nat ->
    run steps (fst (fst c)) (snd (fst c)) (snd c)
    = run (steps - k) (fst (fst c')) (snd (fst c')) (snd c').
Proof.
  induction 1 as [c|k node state w node' state' w' c Hstep _ IH];
    intros steps Hk.
  - now rewrite Nat.sub_0_r.
  - destruct steps as [|steps]; [lia|].
    cbn [run fst snd]. unfold mbind, M_bind. rewrite Hstep.
    apply IH. lia.
Qed.

Lemma advance_reaches k :
  forall c c', advance k c = Some c' -> reaches k c c'.
Proof.
  induction k as [|k IH]; intros [[node state] w] c'; cbn.
  - intros [= <-]. constructor.
  - destruct (step node state w) as [[[[node'|] state']|e] w'] eqn:Hstep;
      try discriminate.
    intros Hadv. econstructor; [exact Hstep | now apply IH].
Qed.

Lemma reaches_grows k c c' :
  reaches k c c' -> exists extra, heap (snd c') = heap (snd c) ++ extra.
Proof.
  induction 1 as [c|k node state w node' state' w' c Hstep _ IH].
  - exists []. now rewrite app_nil_r.
  - apply step_grows in Hstep as [extra1 H1]. destruct IH as [extra2 H2].
    cbn in *. exists (extra1 ++ extra2). now rewrite H2, H1, app_assoc.
Qed.

(** A fault of the model leaves the model node, and the run, as the
    exception it is. *)
Lemma run_model_fault steps state w e :
  llm_invoke (llm_calls w) (messages_for state w) = Raises e ->
  exists w', run (S steps) model state w = (Raises e, w').
Proof.
  intros Hfault. cbn [run step]. unfold mbind, M_bind.
  rewrite call_model_spec. cbv zeta. rewrite Hfault.
  eexists; reflexivity.
Qed.

(** A run that returns has just heard a text answer from the model:
    the outcome is that text and the history ends with it. *)
Lemma run_returns_text steps :
  forall node state w result w',
    run steps node state w = (Returns result, w') ->
    exists h c,
      agent_outcome result = PStr c /\ tool_calls result = [] /\
      deref (chat_history result) w' = h ++ [AIMessage c []].
Proof.
  induction steps as [|steps IH]; intros node state w result w';
    [discriminate|].
  cbn [run]. unfold mbind, M_bind.
  destruct (step node state w) as [[[[node1|] state1]|e] w1] eqn:Hstep;
    [apply IH | | discriminate].
  intros [= <- <-]. destruct node; unfold step, mbind, M_bind in Hstep.
  - rewrite call_model_spec in Hstep. cbv zeta in Hstep.
    destruct (llm_invoke _ _) as [response|e]; [|discriminate].
    unfold mret, M_ret, should_continue, after_model in Hstep. cbn in Hstep.
    destruct (resp_tool_calls response) as [|tc tcs] eqn:Hcalls;
      [|discriminate].
    injection Hstep as <- <-. cbn.
    exists (messages_for state w), (content response).
    repeat split.
    unfold deref. cbn.
    rewrite lookup_app_r by lia. rewrite Nat.sub_succ_l, Nat.sub_diag by lia.
    reflexivity.
  - rewrite call_tool_spec in Hstep. discriminate.
Qed.

End agent_facts.

(** ** The agent: the claims *)

Section agent_claims.
Context {R : Runtime} {L : Model}.

(** C1. A tool step over N tool calls returns, and the history it
    returns is the history it was given followed by exactly N tool
    result messages, the i-th of which answers the id of the i-th tool
    call. *)
Theorem call_tool_appends_results_in_order state w :
  exists u w' appended,
    call_tool state w = (Returns u, w') /\
    deref (t_chat_history u) w' = deref (chat_history state) w ++ appended /\
    length appended = length (tool_calls state) /\
    map answered_call appended
    = map (fun tc => Some (tc_id tc)) (tool_calls state).
Proof.
  rewrite call_tool_spec.
  set (results := fst (tool_results (tool_calls state) (store w))).
  assert (map fst results = tool_calls state) as Hcalls
    by apply tool_results_calls.
  do 2 eexists. exists (map result_message results).
  split; [reflexivity|]. split; [apply deref_last|].
  rewrite <- Hcalls, !length_map, !map_map. split; reflexivity.
Qed.

Lemma not_in_existsb (x : string) (l : list string) :
  ~ In x l -> existsb (String.eqb x) l = false.
Proof.
  intros Hx. induction l as [|y l IH]; [reflexivity|].
  cbn. destruct (String.eqb_spec x y) as [->|_].
  - exfalso. apply Hx. now left.
  - apply IH. intros Hin. apply Hx. now right.
Qed.


(** C10. An outcome that is neither a string nor a list is worded as
    the fixed sentence; and the outcome of a completed turn is always
    the text of the model, so [get_final_response] returns a text for
    it. *)
Theorem get_final_response_fallback :
  (forall result,
     (forall s, agent_outcome result <> PStr s) ->
     (forall l, agent_outcome result <> PList l) ->
     get_final_response result = Returns "Task completed successfully.") /\
  (forall self user_input w result self' w',
     process_input self user_input w = (Returns result, self', w') ->
     exists text, get_final_response result = Returns text).
Proof.
  split.
  - intros result Hs Hl. unfold get_final_response.
    destruct (agent_outcome result); try reflexivity.
    + now destruct (Hs s).
    + now destruct (Hl l).
  - intros self user_input w result self' w'.
    unfold process_input, ainvoke, list_copy, list_get, list_new, mbind,
      M_bind. cbn.
    match goal with
    | |- context [run ?n ?nd ?st ?w0] =>
        destruct (run n nd st w0) as [[result0|e] w0'] eqn:Hrun
    end; [|discriminate].
    intros [= <- _ _].
    apply run_returns_text in Hrun as (h & c & Hout & _).
    exists c. unfold get_final_response. now rewrite Hout.
Qed.

End agent_claims.



(** C10 at work on the outcome [None], and on a completed turn. *)
Lemma get_final_response_fallback_witness :
  get_final_response
    {| input := "hi"; chat_history := 0; agent_outcome := PNone;
       tool_calls := []; tasks_updated := false |}
  = Returns "Task completed successfully." /\
  (exists result self' w' text,
     process_input (L := parrot "ok") agent0 "hi" world0
     = (Returns result, self', w') /\
     get_final_response result = Returns text).
Proof.
  destruct (get_final_response_fallback (L := parrot "ok"))
    as [Hfixed Hturn].
  split.
  - apply Hfixed.
    + intros s. discriminate.
    + intros l. discriminate.
  - destruct (process_input (L := parrot "ok") agent0 "hi" world0)
      as [[[result|e] self'] w'] eqn:Hrun.
    + destruct (Hturn _ _ _ _ _ _ Hrun) as [text Htext].
      now exists result, self', w', text.
    + vm_compute in Hrun. discriminate.
Defined.

Section turn_claims.
Context {R : Runtime} {L : Model}.

Lemma process_input_unfold self user_input w :
  process_input self user_input w
  = match run recursion_limit model
            (initial_state user_input (length (heap w)))
            (snd (list_copy (self_chat_history self) w)) with
    | (Returns result, w') =>
        (Returns result, {| self_chat_history := chat_history result |}, w')
    | (Raises e, w') => (Raises e, self, w')
    end.
Proof. reflexivity. Qed.

Lemma step_model_spec state w :
  step model state w
  = let after heap' :=
      {| heap := heap'; store := store w; llm_calls := S (llm_calls w);
         tool_log := tool_log w |} in
    let sent := messages_for state w in
    match llm_invoke (llm_calls w) sent with
    | Raises e => (Raises e, after (heap w ++ [sent]))
    | Returns response =>
        (Returns
           (match resp_tool_calls response with
            | [] => None
            | _ :: _ => Some tool
            end,
            {| input := input state;
               chat_history := S (length (heap w));
               agent_outcome :=
                 match resp_tool_calls response with
                 | [] => PStr (content response)
                 | _ :: _ => PNone
                 end;
               tool_calls := resp_tool_calls response;
               tasks_updated := tasks_updated state |}),
         after (heap w
                ++ [sent;
                    sent ++ [AIMessage (content response)
                               (resp_tool_calls response)]]))
    end.
Proof.
  unfold step, mbind, M_bind. rewrite call_model_spec. cbv zeta.
  now destruct (llm_invoke _ _).
Qed.

Lemma step_tool_spec state w :
  step tool state w
  = (Returns
       (Some model,
        {| input := input state;
           chat_history := length (heap w);
           agent_outcome :=
             PList (map result_item
                      (fst (tool_results (tool_calls state) (store w))));
           tool_calls := tool_calls state;
           tasks_updated :=
             existsb is_mutating (map tc_name (tool_calls state)) |}),
     {| heap :=
          heap w
          ++ [deref (chat_history state) w
              ++ map result_message
                   (fst (tool_results (tool_calls state) (store w)))];
        store := snd (tool_results (tool_calls state) (store w));
        llm_calls := llm_calls w;
        tool_log :=
          tool_log w
          ++ map result_entry
               (fst (tool_results (tool_calls state) (store w))) |}).
Proof. unfold step, mbind, M_bind. now rewrite call_tool_spec. Qed.

Lemma run_S steps node state w :
  run (S steps) node state w
  = match step node state w with
    | (Returns (Some node', state'), w') => run steps node' state' w'
    | (Returns (None, state'), w') => (Returns state', w')
    | (Raises e, w') => (Raises e, w')
    end.
Proof.
  cbn [run]. unfold mbind, M_bind.
  now destruct (step node state w) as [[[[node'|] state']|e] w'].
Qed.

Lemma input_missing_false (h : list Message) (text : string) :
  input_missing h text = false <-> last h = Some (HumanMessage text).
Proof.
  unfold input_missing. destruct (last h) as [[c|c calls|c i]|]; split;
    try discriminate.
  - intros Hc. apply negb_false_iff, String.eqb_eq in Hc. now subst.
  - intros [= ->]. now rewrite String.eqb_refl.
Qed.

(** C5. When the model faults at any point a turn reaches, the
    exception leaves [process_input], and whenever [process_input]
    raises, the agent still refers to the same history and that history
    is what it was before the turn. *)
Theorem model_fault_keeps_stored_history self user_input w :
  (self_chat_history self < length (heap w))%nat ->
  (forall k state w1 e,
     reaches k
       (model, initial_state user_input (length (heap w)),
        snd (list_copy (self_chat_history self) w))
       (model, state, w1) ->
     (k < recursion_limit)%nat ->
     llm_invoke (llm_calls w1) (messages_for state w1) = Raises e ->
     exists w2, process_input self user_input w = (Raises e, self, w2)) /\
  (forall e self' w2,
     process_input self user_input w = (Raises e, self', w2) ->
     self' = self /\
     deref (self_chat_history self') w2 = deref (self_chat_history self) w).
Proof.
  intros Hvalid. split.
  - intros k state w1 e Hreach Hk Hfault.
    rewrite process_input_unfold.
    rewrite (run_reaches _ _ _ Hreach recursion_limit) by lia.
    cbn [fst snd].
    destruct (recursion_limit - k)%nat as [|m] eqn:Hm; [lia|].
    destruct (run_model_fault m state w1 e Hfault) as [w2 ->].
    now exists w2.
  - intros e self' w2. rewrite process_input_unfold.
    destruct (run _ _ _ _) as [[result|e'] w'] eqn:Hrun; [discriminate|].
    intros [= -> <- <-]. split; [reflexivity|].
    apply run_grows in Hrun as [extra Hextra].
    change (heap (snd (list_copy (self_chat_history self) w)))
      with (heap w ++ [deref (self_chat_history self) w]) in Hextra.
    eapply deref_grows; [exact Hvalid|].
    rewrite Hextra, <- app_assoc. reflexivity.
Qed.

(** C4, as amended. Entering the model node, the user's text is left
    out exactly when the last message of the history is already a user
    message with that text, and is appended otherwise. A completed
    turn leaves a model message last in the stored history, so the next
    submission finds no user message there. *)
Theorem user_message_guard :
  (forall state w u w',
     call_model state w = (Returns u, w') ->
     let h := deref (chat_history state) w in
     exists c calls,
       (last h = Some (HumanMessage (input state)) ->
        deref (m_chat_history u) w' = h ++ [AIMessage c calls]) /\
       (last h <> Some (HumanMessage (input state)) ->
        deref (m_chat_history u) w'
        = h ++ [HumanMessage (input state); AIMessage c calls])) /\
  (forall self user_input w result self' w',
     process_input self user_input w = (Returns result, self', w') ->
     exists h c,
       deref (self_chat_history self') w' = h ++ [AIMessage c []]).
Proof.
  split.
  - intros state w u w'. rewrite call_model_spec. cbv zeta.
    destruct (llm_invoke _ _) as [response|e]; [|discriminate].
    intros [= <- <-].
    exists (content response), (resp_tool_calls response).
    assert (forall h0 x y d n lg,
              deref (S (length h0))
                {| heap := h0 ++ [x; y]; store := d; llm_calls := n;
                   tool_log := lg |} = y) as Hsecond.
    { intros. unfold deref. cbn. rewrite lookup_app_r by lia.
      now rewrite Nat.sub_succ_l, Nat.sub_diag by lia. }
    cbn [m_chat_history]. rewrite Hsecond. unfold messages_for.
    split; intros Hlast.
    + apply input_missing_false in Hlast. now rewrite Hlast.
    + destruct (input_missing _ _) eqn:Hmiss.
      * now rewrite <- app_assoc.
      * now apply input_missing_false in Hmiss.
  - intros self user_input w result self' w'.
    rewrite process_input_unfold.
    destruct (run _ _ _ _) as [[result0|e] w0'] eqn:Hrun; [|discriminate].
    intros [= <- <- <-].
    apply run_returns_text in Hrun as (h & c & _ & _ & Hlast).
    now exists h, c.
Qed.

(** C3, as amended. A tool step sets the flag exactly when one of its
    calls names create_task, update_task or delete_task, whatever the
    result of the call; the flag a turn with exactly one tool step ends
    with is that one; and a turn in which the model answers at once
    ends with the flag unset. *)
Theorem tasks_updated_by_tool_name :
  (forall state w,
     exists u w',
       call_tool state w = (Returns u, w') /\
       t_tasks_updated u
       = existsb is_mutating (map tc_name (tool_calls state))) /\
  (forall self user_input w request answer,
     (forall messages,
        llm_invoke (llm_calls w) messages = Returns request) ->
     (forall messages,
        llm_invoke (S (llm_calls w)) messages = Returns answer) ->
     resp_tool_calls request <> [] ->
     resp_tool_calls answer = [] ->
     (3 <= recursion_limit)%nat ->
     exists result self' w',
       process_input self user_input w = (Returns result, self', w') /\
       tasks_updated result
       = existsb is_mutating (map tc_name (resp_tool_calls request))) /\
  (forall self user_input w answer,
     (forall messages,
        llm_invoke (llm_calls w) messages = Returns answer) ->
     resp_tool_calls answer = [] ->
     (1 <= recursion_limit)%nat ->
     exists result self' w',
       process_input self user_input w = (Returns result, self', w') /\
       tasks_updated result = false).
Proof.
  repeat split.
  - intros state w. rewrite call_tool_spec. do 2 eexists.
    split; reflexivity.
  - intros self user_input w request answer Hfirst Hsecond Hcalls Hnone
      Hlimit.
    rewrite process_input_unfold.
    destruct recursion_limit as [|[|[|limit]]]; try lia.
    rewrite run_S, step_model_spec. cbv zeta.
    change (llm_calls (snd (list_copy (self_chat_history self) w)))
      with (llm_calls w).
    rewrite Hfirst.
    destruct (resp_tool_calls request) as [|tc tcs] eqn:Hreq; [easy|].
    rewrite run_S, step_tool_spec.
    rewrite run_S, step_model_spec. cbv zeta. cbn [llm_calls].
    rewrite Hsecond, Hnone.
    do 3 eexists. split; reflexivity.
  - intros self user_input w answer Hfirst Hnone Hlimit.
    rewrite process_input_unfold.
    destruct recursion_limit as [|limit]; try lia.
    rewrite run_S, step_model_spec. cbv zeta.
    change (llm_calls (snd (list_copy (self_chat_history self) w)))
      with (llm_calls w).
    rewrite Hfirst, Hnone.
    do 3 eexists. split; reflexivity.
Qed.

End turn_claims.

(** ** Wording the outcome *)

Section wording.
Context {R : Runtime}.

Lemma final_line_spec (o : string * list (string * pyval)) :
  well_formed_result o ->
  final_line (outcome_item o) = Returns (PStr (final_text (snd o))).
Proof.
  intros [Hmsg _]. destruct o as [name d]. cbn in *.
  unfold final_line, final_text, mbind, res_bind. cbn.
  destruct (dict_get d "message") as [v|] eqn:Hm.
  - destruct (Hmsg v eq_refl) as [m ->].
    now destruct (eq_str _ "success").
  - now destruct (eq_str _ "success").
Qed.

Lemma map_res_final_line outcomes :
  Forall well_formed_result outcomes ->
  map_res final_line (map outcome_item outcomes)
  = Returns (map (fun o => PStr (final_text (snd o))) outcomes).
Proof.
  induction 1 as [|o outcomes Ho _ IH]; [reflexivity|].
  cbn [map map_res]. unfold mbind, res_bind.
  now rewrite (final_line_spec o Ho), IH.
Qed.

Lemma strings_of_strings (l : list string) :
  strings_of (map PStr l) = Returns l.
Proof.
  induction l as [|s l IH]; [reflexivity|].
  cbn. unfold mbind, res_bind. now rewrite IH.
Qed.

Lemma tool_messages_of_spec (o : string * list (string * pyval)) :
  well_formed_result o ->
  tool_messages_of (outcome_item o) = Returns (feedback_lines o).
Proof.
  intros [_ Htask]. destruct o as [name d]. cbn in Htask.
  unfold tool_messages_of, feedback_lines, feedback_line, summary_line,
    mbind, res_bind, has_key, getitem, get. cbn.
  destruct (dict_get d "status") as [st|] eqn:Hst; cbn.
  2: { reflexivity. }
  destruct st; cbn; try reflexivity.
  destruct (String.eqb s "success"); cbn.
  2: { now destruct (dict_get d "task") as [[]|]. }
  destruct (dict_get d "task") as [v|] eqn:Ht; [|reflexivity].
  destruct (Htask v eq_refl) as [t ->]. cbn.
  destruct (dict_get t "id") as [i|]; cbn; [|reflexivity].
  now destruct (truthy i).
Qed.

Lemma map_res_tool_messages outcomes :
  Forall well_formed_result outcomes ->
  map_res tool_messages_of (map outcome_item outcomes)
  = Returns (map feedback_lines outcomes).
Proof.
  induction 1 as [|o outcomes Ho _ IH]; [reflexivity|].
  cbn [map map_res]. unfold mbind, res_bind.
  now rewrite (tool_messages_of_spec o Ho), IH.
Qed.

(** C9, as amended. For a list of tool results, [get_final_response]
    returns one line per result, the message of the result or the word
    Success or Error, joined by newlines. The lines "Tool 'X' executed:
    Status: ..., Message: ...", each followed by a summary of the task
    for a success that carries one, are what [websocket_endpoint] makes
    of the same list, joined by newlines as well. *)
Theorem outcome_wording outcomes result :
  Forall well_formed_result outcomes ->
  agent_outcome result = PList (map outcome_item outcomes) ->
  get_final_response result
  = Returns (join nl (map (fun o => final_text (snd o)) outcomes)) /\
  ai_response_content result
  = Returns (join nl (concat (map feedback_lines outcomes))).
Proof.
  intros Hwf Hout. split.
  - unfold get_final_response. rewrite Hout.
    unfold mbind, res_bind. rewrite (map_res_final_line _ Hwf).
    rewrite <- (map_map (fun o => final_text (snd o)) PStr).
    now rewrite strings_of_strings.
  - unfold ai_response_content. rewrite Hout.
    assert (forallb is_dict (map outcome_item outcomes) = true) as ->.
    { apply forallb_forall. intros x Hx. apply in_map_iff in Hx.
      now destruct Hx as (o & <- & _). }
    unfold mbind, res_bind. now rewrite (map_res_tool_messages _ Hwf).
Qed.

End wording.

(** ** The claims at work *)

(** C3 at work: Scenario C as a turn, and a turn without tools. *)
Lemma tasks_updated_by_tool_name_witness :
  (exists result self' w',
     process_input (L := scripted [asks [update_999]; says "No task 999."])
       agent0 "mark task 999 done" world0 = (Returns result, self', w') /\
     tasks_updated result = true) /\
  (exists result self' w',
     process_input (L := parrot "Hello!") agent0 "hi" world0
     = (Returns result, self', w') /\
     tasks_updated result = false).
Proof.
  split.
  - apply (proj1 (proj2 (tasks_updated_by_tool_name
                           (L := scripted [asks [update_999];
                                           says "No task 999."])))
             agent0 "mark task 999 done" world0
             (asks [update_999]) (says "No task 999.")).
    + intros messages. reflexivity.
    + intros messages. reflexivity.
    + discriminate.
    + reflexivity.
    + cbn. lia.
  - apply (proj2 (proj2 (tasks_updated_by_tool_name (L := parrot "Hello!")))
             agent0 "hi" world0 (says "Hello!")).
    + intros messages. reflexivity.
    + reflexivity.
    + cbn. lia.
Defined.

(** C3 as stated fails: the update of a task that does not exist fails,
    nothing else runs in the turn, and the turn ends with the flag set. *)
Lemma failed_update_sets_tasks_updated :
  ~ (forall (L : Model) self user_input w result self' w',
       process_input self user_input w = (Returns result, self', w') ->
       tasks_updated result
       = existsb mutation_succeeded
           (drop (length (tool_log w)) (tool_log w'))).
Proof.
  intros H.
  specialize (H (scripted [asks [update_999]; says "No task 999."])
                agent0 "mark task 999 done" world0).
  vm_compute in H. specialize (H _ _ _ eq_refl). discriminate.
Qed.

(** C4 at work: the model node entered with a history that ends with
    the user's text. *)
Lemma user_message_guard_witness :
  exists u w' c calls,
    call_model (L := parrot "ok")
      {| input := "hi"; chat_history := 0; agent_outcome := PNone;
         tool_calls := []; tasks_updated := false |} seeded_world
    = (Returns u, w') /\
    deref (m_chat_history u) w'
    = [HumanMessage "hi"] ++ [AIMessage c calls].
Proof.
  destruct (call_model (L := parrot "ok")
              {| input := "hi"; chat_history := 0; agent_outcome := PNone;
                 tool_calls := []; tasks_updated := false |} seeded_world)
    as [[u|e] w'] eqn:Hrun.
  - destruct (proj1 (user_message_guard (L := parrot "ok")) _ _ _ _ Hrun)
      as (c & calls & Hkept & _).
    exists u, w', c, calls. split; [reflexivity|].
    apply Hkept. reflexivity.
  - vm_compute in Hrun. discriminate.
Defined.

(** C4 as stated fails: the same text submitted twice to a fresh
    session is in the stored history twice. *)
Lemma second_submission_repeats_user_message :
  ~ (forall (L : Model) text r1 a1 w1 r2 a2 w2,
       process_input agent0 text world0 = (Returns r1, a1, w1) ->
       process_input a1 text w1 = (Returns r2, a2, w2) ->
       count_user text (deref (self_chat_history a2) w2) = 1%nat).
Proof.
  intros H.
  destruct (process_input (L := parrot "ok") agent0 "hi" world0)
    as [[r1 a1] w1] eqn:H1.
  pose proof H1 as Hfirst.
  vm_compute in H1. injection H1 as <- <- <-.
  match type of Hfirst with
  | _ = (_, ?a1, ?w1) =>
      destruct (process_input (L := parrot "ok") a1 "hi" w1)
        as [[r2 a2] w2] eqn:H2
  end.
  pose proof H2 as Hsecond.
  vm_compute in H2. injection H2 as <- <- <-.
  specialize (H (parrot "ok") "hi" _ _ _ _ _ _ Hfirst Hsecond).
  vm_compute in H. discriminate.
Qed.

(** C5 at work: the model asks for a create, the tool runs, and the
    second invocation of the model faults. *)
Lemma model_fault_keeps_stored_history_witness :
  exists w2,
    process_input (L := scripted [asks [create_milk]]) agent0 "add milk" world0
    = (Raises (Exn ModelInvocationError "model unreachable"), agent0, w2) /\
    deref (self_chat_history agent0) w2
    = deref (self_chat_history agent0) world0.
Proof.
  assert (self_chat_history agent0 < length (heap world0))%nat as Hvalid
    by (cbn; lia).
  pose proof (model_fault_keeps_stored_history
                (L := scripted [asks [create_milk]])
                agent0 "add milk" world0 Hvalid) as [Hraise Hkeep].
  destruct (advance (L := scripted [asks [create_milk]]) 2
              (model, initial_state "add milk" (length (heap world0)),
               snd (list_copy (self_chat_history agent0) world0)))
    as [[[node state] w1]|] eqn:Hadv.
  - pose proof (advance_reaches _ _ _ Hadv) as Hreach.
    vm_compute in Hadv. injection Hadv as <- <- <-.
    destruct (Hraise 2%nat _ _ (Exn ModelInvocationError "model unreachable")
                Hreach) as [w2 Hw2].
    + cbn. lia.
    + reflexivity.
    + exists w2. split; [exact Hw2|].
      now destruct (Hkeep _ _ _ Hw2).
  - vm_compute in Hadv. discriminate.
Defined.

(** C9 at work on the outcome of an update that found no task. *)
Lemma outcome_wording_witness :
  get_final_response
    {| input := "mark task 999 done"; chat_history := 0;
       agent_outcome :=
         PList [outcome_item
                  ("update_task",
                   [("status", PStr "error");
                    ("message", PStr "Task not found with ID 999.")])];
       tool_calls := []; tasks_updated := true |}
  = Returns "Task not found with ID 999." /\
  ai_response_content
    {| input := "mark task 999 done"; chat_history := 0;
       agent_outcome :=
         PList [outcome_item
                  ("update_task",
                   [("status", PStr "error");
                    ("message", PStr "Task not found with ID 999.")])];
       tool_calls := []; tasks_updated := true |}
  = Returns ("Tool 'update_task' executed: Status: error, "
             +:+ "Message: Task not found with ID 999.").
Proof.
  apply (outcome_wording
           [("update_task",
             [("status", PStr "error");
              ("message", PStr "Task not found with ID 999.")])]).
  - repeat constructor; cbn; intros v [= <-]; eexists; reflexivity.
  - reflexivity.
Defined.

(** C9 as stated fails: what [get_final_response] returns for a list of
    results has no line that names the tool. *)
Lemma get_final_response_names_no_tool :
  ~ (forall outcomes result text,
       Forall well_formed_result outcomes ->
       agent_outcome result = PList (map outcome_item outcomes) ->
       get_final_response result = Returns text ->
       Forall (fun o =>
                 contains (lower text)
                   (lower ("tool '" +:+ fst o +:+ "' executed: ")) = true)
         outcomes).
Proof.
  intros H.
  specialize (H [("update_task",
                  [("status", PStr "error");
                   ("message", PStr "Task not found with ID 999.")])]
                {| input := "mark task 999 done"; chat_history := 0;
                   agent_outcome :=
                     PList [outcome_item
                              ("update_task",
                               [("status", PStr "error");
                                ("message",
                                  PStr "Task not found with ID 999.")])];
                   tool_calls := []; tasks_updated := true |}
                "Task not found with ID 999.").
  assert (Forall well_formed_result
            [("update_task",
              [("status", PStr "error");
               ("message", PStr "Task not found with ID 999.")])]) as Hwf.
  { repeat constructor; cbn; intros v [= <-]; eexists; reflexivity. }
  specialize (H Hwf eq_refl eq_refl).
  inversion H as [|o os Hline _]. vm_compute in Hline. discriminate.
Qed.

(** * More of the code *)

(** ** Reading the table: [list_tasks], [filter_tasks], [get_all_tasks] *)

Section reading.
Context {R : Runtime}.

Lemma insert_desc_perm t l : Permutation (insert_desc t l) (t :: l).
Proof.
  induction l as [|u l IH]; cbn; [reflexivity|].
  destruct (Z.leb _ _); [reflexivity|].
  rewrite IH. apply perm_swap.
Qed.

Lemma order_by_created_desc_perm l : Permutation (order_by_created_desc l) l.
Proof.
  induction l as [|t l IH]; cbn; [reflexivity|].
  rewrite insert_desc_perm. now constructor.
Qed.

Lemma order_by_created_desc_In t l :
  In t (order_by_created_desc l) <-> In t l.
Proof.
  split; apply Permutation_in;
    [|symmetry]; apply order_by_created_desc_perm.
Qed.

Lemma insert_desc_sorted t l :
  newest_first l -> newest_first (insert_desc t l).
Proof.
  unfold newest_first. induction 1 as [|u l Hl IH Hu]; cbn.
  - repeat constructor.
  - destruct (Z.leb_spec (created_at u) (created_at t)) as [Hle|Hlt].
    + constructor; [now constructor|].
      constructor; [exact Hle|].
      eapply Forall_impl; [exact Hu|]. cbn. intros v Hv. lia.
    + constructor; [exact IH|].
      eapply Permutation_Forall; [symmetry; apply insert_desc_perm|].
      constructor; [lia | exact Hu].
Qed.

Lemma order_by_created_desc_sorted l : newest_first (order_by_created_desc l).
Proof.
  induction l as [|t l IH]; cbn; [constructor|].
  now apply insert_desc_sorted.
Qed.

Lemma reads_parse_if_given {A : Type} (parse : string -> option A)
    (arg : option string) (v : option A) :
  reads parse arg v ->
  tools.parse_if_given arg (fun x => option_map Some (parse x)) None = Some v.
Proof.
  destruct v as [x|]; cbn.
  - intros [Ht Hp]. destruct arg as [[|c rest]|]; try discriminate.
    cbn in *. now rewrite Hp.
  - intros Ht. now destruct arg as [[|c rest]|].
Qed.

(** [list_tasks] answers with every stored task, each as often as it is
    stored, newest first, and leaves the store as it is. *)
Theorem list_tasks_all_newest_first d :
  exists tasks,
    tools.list_tasks d = (tools.tasks_response tasks, d) /\
    Permutation tasks (rows d) /\ newest_first tasks.
Proof.
  exists (order_by_created_desc (rows d)). split; [reflexivity|].
  split; [apply order_by_created_desc_perm | apply order_by_created_desc_sorted].
Qed.

(** With arguments that parse, [filter_tasks] answers with exactly the
    stored tasks that meet every criterion given, newest first; a task
    without a due date meets no due-date criterion. The store is left as
    it is. *)
Theorem filter_tasks_selects status priority due_date_before due_date_after
    st pr before after d :
  reads parse_status status st ->
  reads parse_priority priority pr ->
  reads strptime due_date_before before ->
  reads strptime due_date_after after ->
  exists tasks,
    tools.filter_tasks status priority due_date_before due_date_after d
    = (tools.tasks_response tasks, d) /\
    newest_first tasks /\
    forall t,
      In t tasks <->
      In t (rows d) /\
      (forall v, st = Some v -> models.status t = v) /\
      (forall v, pr = Some v -> models.priority t = v) /\
      (forall v, before = Some v ->
                 exists due, due_date t = Some due /\ due <= v) /\
      (forall v, after = Some v ->
                 exists due, due_date t = Some due /\ v <= due).
Proof.
  intros Hst Hpr Hb Ha.
  unfold tools.filter_tasks.
  pose proof (reads_parse_if_given _ _ _ Hst) as Est.
  pose proof (reads_parse_if_given _ _ _ Hpr) as Epr.
  unfold parse_status, parse_priority in Est, Epr.
  rewrite Est, Epr, (reads_parse_if_given _ _ _ Hb),
    (reads_parse_if_given _ _ _ Ha).
  eexists. split; [reflexivity|].
  split; [apply order_by_created_desc_sorted|].
  intros t.
  rewrite order_by_created_desc_In.
  cbn [tools.get_db_session_for_tool SessionLocal bind].
  assert (forall (o : option Z) (cmp : Z -> Z -> bool) (P : Z -> Z -> Prop)
                 (l : list Task),
            (forall x y, cmp x y = true <-> P x y) ->
            In t (if o is Some v then List.filter (tools.due_cmp cmp v) l
                  else l)
            <-> In t l /\
                (forall v, o = Some v ->
                           exists due, due_date t = Some due /\ P due v))
    as Hdue.
  { intros o cmp P l Hcmp. destruct o as [v|].
    - rewrite filter_In. unfold tools.due_cmp. split.
      + intros [Hin Hc]. split; [exact Hin|]. intros ? [= <-].
        destruct (due_date t) as [due|]; [|discriminate].
        exists due. split; [reflexivity | now apply Hcmp].
      + intros [Hin Hc]. split; [exact Hin|].
        destruct (Hc v eq_refl) as (due & -> & Hp). now apply Hcmp.
    - split; [intros Hin; split; [exact Hin | discriminate] | tauto]. }
  assert (forall {A : Type} `{EqDecision A} (o : option A) (f : Task -> A)
                 (l : list Task),
            In t (if o is Some v
                  then List.filter (fun x => bool_decide (f x = v)) l else l)
            <-> In t l /\ (forall v, o = Some v -> f t = v)) as Heq.
  { intros A ? o f l. destruct o as [v|].
    - rewrite filter_In, bool_decide_eq_true. split.
      + intros [Hin Hv]. split; [exact Hin|]. now intros ? [= <-].
      + intros [Hin Hv]. split; [exact Hin | now apply Hv].
    - split; [intros Hin; split; [exact Hin | discriminate] | tauto]. }
  rewrite (Hdue after Z.geb (fun x y => y <= x))
    by (intros x y; rewrite Z.geb_le; reflexivity).
  rewrite (Hdue before Z.leb Z.le) by (intros x y; apply Z.leb_le).
  rewrite (Heq _ _ pr models.priority), (Heq _ _ st models.status).
  tauto.
Qed.

(** [filter_tasks] answers an argument that does not parse with a
    Failure, and never changes the store. *)
Theorem filter_tasks_rejects_and_reads_only status priority due_date_before
    due_date_after d :
  snd (tools.filter_tasks status priority due_date_before due_date_after d)
  = d /\
  (rejected parse_status status \/ rejected parse_priority priority \/
   rejected strptime due_date_before \/ rejected strptime due_date_after ->
   is_failure (fst (tools.filter_tasks status priority due_date_before
                      due_date_after d)) = true).
Proof.
  unfold tools.filter_tasks. split.
  - repeat (match goal with
            | |- context [tools.parse_if_given ?a ?f ?o] =>
                destruct (tools.parse_if_given a f o) as [?|]
            end; [|reflexivity]).
    reflexivity.
  - pose proof (rejected_parse_if_given parse_status status None) as Hs.
    pose proof (rejected_parse_if_given parse_priority priority None) as Hp.
    pose proof (rejected_parse_if_given strptime due_date_before None) as Hb.
    pose proof (rejected_parse_if_given strptime due_date_after None) as Ha.
    unfold parse_status, parse_priority in Hs, Hp.
    intros [H|[H|[H|H]]].
    + now rewrite (Hs H).
    + rewrite (Hp H). now destruct (tools.parse_if_given status _ None).
    + rewrite (Hb H).
      destruct (tools.parse_if_given status _ None); [|reflexivity].
      now destruct (tools.parse_if_given priority _ None).
    + rewrite (Ha H).
      destruct (tools.parse_if_given status _ None); [|reflexivity].
      destruct (tools.parse_if_given priority _ None); [|reflexivity].
      now destruct (tools.parse_if_given due_date_before _ None).
Qed.

Lemma fold_left_snoc_map {A B : Type} (f : A -> B) (l : list A) (acc : list B) :
  fold_left (fun acc x => acc ++ [f x]) l acc = acc ++ map f l.
Proof.
  revert acc. induction l as [|x l IH]; intros acc; cbn.
  - now rewrite app_nil_r.
  - now rewrite IH, <- app_assoc.
Qed.

(** The [/tasks] route and the [list_tasks] tool give the same list of
    task dicts, in the same order. *)
Theorem get_all_tasks_agrees_with_list_tasks d :
  snd (routes.get_all_tasks d) = d /\
  getitem (fst (routes.get_all_tasks d)) "tasks"
  = getitem (fst (tools.list_tasks d)) "tasks".
Proof.
  split; [reflexivity|].
  unfold routes.get_all_tasks, tools.list_tasks, tools.tasks_response.
  cbn. now rewrite fold_left_snoc_map.
Qed.

End reading.

(** ** Writing the table: [create_task], [update_task], [delete_task] *)

Section writing.
Context {R : Runtime}.

Lemma upper_lower_ascii (c : ascii) :
  upper_ascii (lower_ascii c) = upper_ascii c /\
  lower_ascii (upper_ascii c) = lower_ascii c.
Proof. destruct c as [[] [] [] [] [] [] [] []]; split; reflexivity. Qed.

Lemma upper_lower (s : string) : upper (lower s) = upper s.
Proof.
  unfold upper, lower. induction s as [|c s IH]; [reflexivity|].
  cbn. now rewrite IH, (proj1 (upper_lower_ascii c)).
Qed.

Lemma lower_upper (s : string) : lower (upper s) = lower s.
Proof.
  unfold upper, lower. induction s as [|c s IH]; [reflexivity|].
  cbn. now rewrite IH, (proj2 (upper_lower_ascii c)).
Qed.

(** The status and the priority are recognised by name in any mix of
    upper and lower case, and by nothing else: an ASCII text is accepted
    exactly when its lower-case form is the value of a member. *)
Theorem enum_names_in_any_case :
  (forall s p, isascii s = true ->
     (parse_priority s = Some p <-> lower s = priority_value p)) /\
  (forall s st, isascii s = true ->
     (parse_status s = Some st <-> lower s = status_value st)).
Proof.
  split; intros s v _; unfold parse_priority, parse_status,
    priority_by_name, status_by_name; split.
  - repeat match goal with
    | |- context [String.eqb (upper s) ?n] =>
        destruct (String.eqb_spec (upper s) n) as [Hu|_];
        [intros [= <-]; rewrite <- (lower_upper s), Hu; reflexivity|]
    end.
    discriminate.
  - intros Hl. rewrite <- (upper_lower s), Hl. now destruct v.
  - repeat match goal with
    | |- context [String.eqb (upper s) ?n] =>
        destruct (String.eqb_spec (upper s) n) as [Hu|_];
        [intros [= <-]; rewrite <- (lower_upper s), Hu; reflexivity|]
    end.
    discriminate.
  - intros Hl. rewrite <- (upper_lower s), Hl. now destruct v.
Qed.

Lemma reads_priority_default (arg : option string) (pr : option TaskPriority) :
  reads parse_priority arg pr ->
  tools.parse_if_given arg (fun x => priority_by_name (upper x)) MEDIUM
  = Some (default MEDIUM pr).
Proof.
  destruct pr as [p|]; cbn.
  - intros [Ht Hp]. destruct arg as [[|c rest]|]; try discriminate.
    exact Hp.
  - intros Ht. now destruct arg as [[|c rest]|].
Qed.

(** What [create_task] does when its arguments parse and the commit
    goes through. *)
Lemma create_task_spec title description due_date priority dd pr d :
  db_wf d ->
  reads strptime due_date dd ->
  reads parse_priority priority pr ->
  commit_fault (add {| n_title := title; n_description := description;
                       n_due_date := dd; n_priority := default MEDIUM pr;
                       n_status := TODO |} (SessionLocal d)) = None ->
  let t := {| id := next_id d; title := title; description := description;
              status := TODO; due_date := dd;
              priority := default MEDIUM pr;
              created_at := db_now d; updated_at := db_now d |} in
  tools.create_task title description due_date priority d
  = (PDict [ ("status", PStr "success");
             ("message", PStr ("Task '" +:+ title
                +:+ "' created successfully with ID "
                +:+ str_int (next_id d) +:+ "."));
             ("task", tools.task_dict t) ],
     {| rows := rows d ++ [t]; next_id := next_id d + 1;
        db_now := db_now d |}).
Proof.
  intros Hwf Hdue Hprio Hcommit t.
  unfold tools.create_task, tools.create_task_try, tools.commit,
    tools.get_db_session_for_tool.
  rewrite (reads_parse_if_given _ _ _ Hdue), (reads_priority_default _ _ Hprio).
  rewrite Hcommit.
  unfold refresh, flushed. cbn -[Z.add].
  rewrite update_row_nothing_loaded, filter_all, Z.add_0_r.
  fold t. now rewrite (find_fresh_key (rows d) t (next_id d) Hwf eq_refl).
Qed.

(** A created task holds what was asked for: the title and description
    as given, the parsed due date, the named priority or medium, status
    todo; it gets the next primary key and the time of the server, and it
    is added at the end of the table, which is otherwise unchanged. *)
Theorem create_task_stores_arguments title description due_date priority
    dd pr d :
  db_wf d ->
  reads strptime due_date dd ->
  reads parse_priority priority pr ->
  (forall s, commit_fault s = None) ->
  exists t response,
    tools.create_task title description due_date priority d
    = (response,
       {| rows := rows d ++ [t]; next_id := next_id d + 1;
          db_now := db_now d |}) /\
    is_success response = true /\
    getitem response "task" = Returns (tools.task_dict t) /\
    t = {| id := next_id d; title := title; description := description;
           status := TODO; due_date := dd; priority := default MEDIUM pr;
           created_at := db_now d; updated_at := db_now d |}.
Proof.
  intros Hwf Hdue Hprio Hcommit.
  rewrite (create_task_spec _ _ _ _ dd pr d Hwf Hdue Hprio (Hcommit _)).
  do 2 eexists. repeat split.
Qed.

Lemma id_not_in_split (before after : list Task) (t r : Task) :
  NoDup (map id (before ++ t :: after)) ->
  In r (before ++ after) -> Z.eqb (id r) (id t) = false.
Proof.
  rewrite map_app. cbn. intros Hnd Hin.
  apply NoDup_app in Hnd as (_ & Hdisj & Ht).
  apply NoDup_cons in Ht as [Ht _].
  apply Z.eqb_neq. intros Heq.
  apply in_app_or in Hin as [Hin|Hin].
  - apply (Hdisj (id r)).
    + apply list_elem_of_In. now apply in_map.
    + rewrite Heq. now left.
  - apply Ht. rewrite <- Heq. apply list_elem_of_In. now apply in_map.
Qed.

Lemma map_update_row_single now (before after : list Task) (t tf : Task) :
  NoDup (map id (before ++ t :: after)) -> id tf = id t ->
  map (update_row now [tf]) (before ++ t :: after)
  = before ++ stamped now t tf :: after.
Proof.
  intros Hnd Hid.
  assert (forall l, (forall r, In r l -> Z.eqb (id r) (id t) = false) ->
                    map (update_row now [tf]) l = l) as Hsame.
  { induction l as [|r l IH]; intros Hl; [reflexivity|].
    cbn [map]. rewrite IH by (intros; apply Hl; now right).
    unfold update_row. cbn. rewrite Hid, Z.eqb_sym, (Hl r) by now left.
    reflexivity. }
  rewrite map_app. cbn [map].
  rewrite !Hsame
    by (intros r Hr; eapply id_not_in_split; [exact Hnd|];
        apply in_or_app; auto).
  f_equal. f_equal. unfold update_row, stamped. cbn.
  replace (Z.eqb (id tf) (id t)) with true
    by (rewrite Hid; symmetry; apply Z.eqb_refl).
  reflexivity.
Qed.

Lemma find_by_id_split (before after : list Task) (t x : Task) :
  NoDup (map id (before ++ t :: after)) -> id x = id t ->
  find (fun r => Z.eqb (id r) (id t)) (before ++ x :: after) = Some x.
Proof.
  intros Hnd Hid.
  assert (forall r, In r before -> Z.eqb (id r) (id t) = false) as Hb.
  { intros r Hr. eapply id_not_in_split; [exact Hnd|].
    apply in_or_app. now left. }
  clear Hnd. induction before as [|r before IH]; cbn.
  - now rewrite Hid, Z.eqb_refl.
  - rewrite (Hb r) by now left. apply IH. intros; apply Hb. now right.
Qed.

Lemma filter_out_split (before after : list Task) (t : Task) :
  NoDup (map id (before ++ t :: after)) ->
  List.filter (fun r => negb (existsb (Z.eqb (id r)) [id t]))
    (before ++ t :: after)
  = before ++ after.
Proof.
  intros Hnd.
  assert (forall l, (forall r, In r l -> Z.eqb (id r) (id t) = false) ->
                    List.filter
                      (fun r => negb (existsb (Z.eqb (id r)) [id t])) l = l)
    as Hsame.
  { induction l as [|r l IH]; intros Hl; [reflexivity|].
    cbn [List.filter].
    rewrite IH by (intros; apply Hl; now right).
    cbn [existsb]. now rewrite (Hl r) by now left. }
  rewrite List.filter_app. cbn [List.filter existsb].
  rewrite Z.eqb_refl. cbn [orb negb].
  rewrite !Hsame
    by (intros r Hr; eapply id_not_in_split; [exact Hnd|];
        apply in_or_app; auto).
  reflexivity.
Qed.

Lemma resolved_session task_id title_match d t :
  resolved task_id title_match d = Some t ->
  tools.find_task task_id title_match (SessionLocal d)
  = (Some t, {| bind := d; loaded := [t]; added := []; deleted := [] |}).
Proof.
  unfold resolved.
  destruct (tools.find_task task_id title_match (SessionLocal d))
    as [o s] eqn:Hf.
  cbn. intros ->. now apply find_task_some in Hf as [_ ->].
Qed.

Lemma resolved_split task_id title_match d t :
  resolved task_id title_match d = Some t ->
  exists before after, rows d = before ++ t :: after.
Proof.
  rewrite resolved_find. intros Hf. apply find_first in Hf.
  destruct Hf as (before & after & -> & _). now exists before, after.
Qed.

(** The assignments of [update_task], taken together. *)
Lemma update_task_try_assigns task_id title_match new_title new_description
    new_status new_due_date new_priority st dd pr d t :
  resolved task_id title_match d = Some t ->
  reads parse_status new_status st ->
  reads strptime new_due_date dd ->
  reads parse_priority new_priority pr ->
  tools.update_task_try task_id title_match new_title new_description
    new_status new_due_date new_priority (SessionLocal d)
  = let tf := updated_task t new_title new_description st dd pr in
    let s := {| bind := d; loaded := [tf]; added := []; deleted := [] |} in
    match tools.commit s with
    | Raises e => (Raises e, s)
    | Returns s' =>
        match refresh (id tf) s' with
        | None => (Raises (Exn StoreError "Could not refresh instance"), s')
        | Some task =>
            (Returns (PDict
               [ ("status", PStr "success");
                 ("message", PStr ("Task '" +:+ title task
                    +:+ "' updated successfully."));
                 ("task", tools.task_dict task) ]), s')
        end
    end.
Proof.
  intros Hres Hst Hdd Hpr.
  unfold tools.update_task_try.
  rewrite (resolved_session _ _ _ _ Hres).
  pose proof (reads_parse_if_given _ _ _ Hst) as Est.
  pose proof (reads_parse_if_given _ _ _ Hpr) as Epr.
  unfold parse_status, parse_priority in Est, Epr.
  rewrite Est, (reads_parse_if_given _ _ _ Hdd), Epr.
  unfold updated_task, tools.assign, set_attrs. destruct t.
  destruct (truthy_str new_title), (truthy_str new_description),
    st as [st|], dd as [dd|], pr as [pr|];
    cbn; rewrite ?Z.eqb_refl; reflexivity.
Qed.

(** What [update_task] does when it resolves a task, its arguments
    parse and the commit goes through. *)
Lemma update_task_spec task_id title_match new_title new_description
    new_status new_due_date new_priority st dd pr d t before after :
  NoDup (map id (rows d)) ->
  rows d = before ++ t :: after ->
  resolved task_id title_match d = Some t ->
  reads parse_status new_status st ->
  reads strptime new_due_date dd ->
  reads parse_priority new_priority pr ->
  (forall s, commit_fault s = None) ->
  let t' := stamped (db_now d) t
              (updated_task t new_title new_description st dd pr) in
  tools.update_task task_id title_match new_title new_description
    new_status new_due_date new_priority d
  = (PDict [ ("status", PStr "success");
             ("message", PStr ("Task '" +:+ title t'
                +:+ "' updated successfully."));
             ("task", tools.task_dict t') ],
     {| rows := before ++ t' :: after; next_id := next_id d;
        db_now := db_now d |}).
Proof.
  intros Hnd Hrows Hres Hst Hdd Hpr Hcommit t'.
  unfold tools.update_task, tools.get_db_session_for_tool.
  rewrite (update_task_try_assigns _ _ _ _ _ _ _ st dd pr d t Hres Hst Hdd Hpr).
  cbv zeta. unfold tools.commit. rewrite Hcommit.
  unfold refresh, flushed. cbn [bind loaded added deleted SessionLocal rows
    next_id db_now fold_left existsb negb].
  rewrite filter_all, Hrows.
  rewrite Hrows in Hnd.
  rewrite (map_update_row_single _ _ _ _ _ Hnd) by reflexivity.
  fold t'.
  change (id (updated_task t new_title new_description st dd pr))
    with (id t).
  rewrite (find_by_id_split before after t t' Hnd).
  - reflexivity.
  - unfold t', stamped. now case_bool_decide.
Qed.

(** What [delete_task] does when it resolves a task and the commit
    goes through. *)
Lemma delete_task_spec task_id title_match d t before after :
  NoDup (map id (rows d)) ->
  rows d = before ++ t :: after ->
  resolved task_id title_match d = Some t ->
  (forall s, commit_fault s = None) ->
  tools.delete_task task_id title_match d
  = (PDict [ ("status", PStr "success");
             ("message", PStr ("Task '" +:+ title t +:+ "' (ID: "
                +:+ str_int (id t) +:+ ") deleted successfully.")) ],
     {| rows := before ++ after; next_id := next_id d;
        db_now := db_now d |}).
Proof.
  intros Hnd Hrows Hres Hcommit.
  unfold tools.delete_task, tools.delete_task_try,
    tools.get_db_session_for_tool.
  rewrite (resolved_session _ _ _ _ Hres).
  unfold tools.commit. rewrite Hcommit.
  unfold flushed, delete. cbn [bind loaded added deleted SessionLocal rows
    next_id db_now fold_left app close].
  rewrite Hrows. rewrite Hrows in Hnd.
  rewrite (map_update_row_single _ _ _ _ _ Hnd) by reflexivity.
  assert (stamped (db_now d) t t = t) as ->
    by (unfold stamped; now case_bool_decide).
  now rewrite (filter_out_split _ _ _ Hnd).
Qed.

(** A task resolved and updated is rewritten in place: the row keeps its
    position, its primary key and its creation time, takes the fields
    given, and gets the server time as [updated_at] only if a field has
    changed; every other row is as before. An update that names no new
    field succeeds and leaves the store exactly as it was. *)
Theorem update_task_rewrites_one_row task_id title_match new_title
    new_description new_status new_due_date new_priority st dd pr d t :
  NoDup (map id (rows d)) ->
  resolved task_id title_match d = Some t ->
  reads parse_status new_status st ->
  reads strptime new_due_date dd ->
  reads parse_priority new_priority pr ->
  (forall s, commit_fault s = None) ->
  exists before after t' response,
    rows d = before ++ t :: after /\
    tools.update_task task_id title_match new_title new_description
      new_status new_due_date new_priority d
    = (response,
       {| rows := before ++ t' :: after; next_id := next_id d;
          db_now := db_now d |}) /\
    is_success response = true /\
    getitem response "task" = Returns (tools.task_dict t') /\
    t' = stamped (db_now d) t
           (updated_task t new_title new_description st dd pr) /\
    id t' = id t /\ created_at t' = created_at t /\
    (truthy_str new_title = false -> truthy_str new_description = false ->
     st = None -> dd = None -> pr = None ->
     tools.update_task task_id title_match new_title new_description
       new_status new_due_date new_priority d = (response, d)).
Proof.
  intros Hnd Hres Hst Hdd Hpr Hcommit.
  destruct (resolved_split _ _ _ _ Hres) as (before & after & Hrows).
  exists before, after. do 2 eexists.
  split; [exact Hrows|].
  split; [apply (update_task_spec _ _ _ _ _ _ _ st dd pr d t before after);
          assumption|].
  split; [reflexivity|]. split; [reflexivity|]. split; [reflexivity|].
  assert (forall u, id (stamped (db_now d) t u) = id u \/
                    stamped (db_now d) t u = t) as Hcases.
  { intros u. unfold stamped. case_bool_decide; auto. }
  split; [|split].
  - unfold stamped. now case_bool_decide.
  - unfold stamped. now case_bool_decide.
  - intros Ht Hd -> -> ->.
    rewrite (update_task_spec _ _ _ _ _ _ _ None None None d t before after)
      by assumption.
    f_equal.
    assert (updated_task t new_title new_description None None None = t)
      as -> by (unfold updated_task; rewrite Ht, Hd; now destruct t).
    assert (stamped (db_now d) t t = t) as ->
      by (unfold stamped; now case_bool_decide).
    rewrite <- Hrows. now destruct d.
Qed.


(** Creating a task and deleting it by the key that the create reports
    brings the rows of the table back to what they were. *)
Theorem create_then_delete_restores_rows title description due_date priority
    dd pr other_match d :
  store_ok d -> next_id d <> 0 -> bindable (Some (next_id d)) ->
  reads strptime due_date dd ->
  reads parse_priority priority pr ->
  (forall s, commit_fault s = None) ->
  let created := tools.create_task title description due_date priority d in
  exists key,
    task_field (fst created) "id" = Some (PInt key) /\
    is_success (fst (tools.delete_task (Some key) other_match (snd created)))
    = true /\
    rows (snd (tools.delete_task (Some key) other_match (snd created)))
    = rows d.
Proof.
  intros [Hwf Hnd] Hnext _ Hdue Hprio Hcommit.
  rewrite (create_task_spec _ _ _ _ dd pr d Hwf Hdue Hprio (Hcommit _)).
  cbv zeta. cbn [fst snd]. exists (next_id d).
  split; [reflexivity|].
  set (t := {| id := next_id d; title := title; description := description;
               status := TODO; due_date := dd; priority := default MEDIUM pr;
               created_at := db_now d; updated_at := db_now d |}).
  set (d1 := {| rows := rows d ++ [t]; next_id := next_id d + 1;
                db_now := db_now d |}).
  assert (NoDup (map id (rows d1))) as Hnd1.
  { cbn. rewrite map_app. apply NoDup_app. split; [exact Hnd|].
    split; [|apply NoDup_singleton].
    intros x Hx [<-|[]]%list_elem_of_In. cbn in Hx.
    apply list_elem_of_In, in_map_iff in Hx as (r & Hr & Hin).
    unfold db_wf in Hwf. rewrite List.Forall_forall in Hwf.
    specialize (Hwf r Hin). cbn in Hr. lia. }
  assert (resolved (Some (next_id d)) other_match d1 = Some t) as Hres.
  { rewrite resolved_find. unfold selects. cbn [truthy_int default].
    apply Z.eqb_neq in Hnext. rewrite Hnext. cbn [negb].
    now apply find_fresh_key. }
  rewrite (delete_task_spec _ _ d1 t (rows d) [] Hnd1 eq_refl Hres Hcommit).
  cbn. split; [reflexivity|]. now rewrite app_nil_r.
Qed.

Lemma filter_length_perm {A : Type} (p : A -> bool) (l l' : list A) :
  Permutation l l' ->
  length (List.filter p l) = length (List.filter p l').
Proof.
  induction 1 as [|x l l' _ IH|x y l|l l' l'' _ IH1 _ IH2]; cbn.
  - reflexivity.
  - destruct (p x); cbn; now rewrite IH.
  - destruct (p x), (p y); reflexivity.
  - now rewrite IH1.
Qed.

(** After a create, filtering by status todo and by the priority of the
    new task lists the new task exactly once. *)
Theorem create_then_filter_finds_it_once title description due_date priority
    dd pr d :
  store_ok d ->
  reads strptime due_date dd ->
  reads parse_priority priority pr ->
  (forall s, commit_fault s = None) ->
  let d1 := snd (tools.create_task title description due_date priority d) in
  exists tasks,
    tools.filter_tasks (Some "todo")
      (Some (priority_value (default MEDIUM pr))) None None d1
    = (tools.tasks_response tasks, d1) /\
    length (List.filter (fun t => Z.eqb (id t) (next_id d)) tasks) = 1%nat.
Proof.
  intros [Hwf Hnd] Hdue Hprio Hcommit.
  rewrite (create_task_spec _ _ _ _ dd pr d Hwf Hdue Hprio (Hcommit _)).
  cbn [snd].
  set (t := {| id := next_id d; title := title; description := description;
               status := TODO; due_date := dd; priority := default MEDIUM pr;
               created_at := db_now d; updated_at := db_now d |}).
  unfold tools.filter_tasks.
  assert (tools.parse_if_given (Some (priority_value (default MEDIUM pr)))
            (fun x => option_map Some (priority_by_name (upper x))) None
          = Some (Some (default MEDIUM pr))) as ->
    by (now destruct (default MEDIUM pr)).
  cbn [tools.parse_if_given option_map status_by_name tools.get_db_session_for_tool
       SessionLocal bind rows close].
  change (status_by_name (upper "todo")) with (Some TODO). cbn [option_map].
  eexists. split; [reflexivity|].
  rewrite (filter_length_perm _ _ _ (order_by_created_desc_perm _)).
  rewrite !List.filter_app, length_app.
  assert (forall l, l = [t] ->
            List.filter (fun t0 => Z.eqb (id t0) (next_id d))
              (List.filter
                 (fun t0 => bool_decide (models.priority t0 = default MEDIUM pr))
                 (List.filter (fun t0 => bool_decide (status t0 = TODO)) l))
            = [t]) as Hnew.
  { intros l ->. cbn [List.filter]. unfold t at 1. cbn [status].
    rewrite bool_decide_eq_true_2 by reflexivity.
    cbn [List.filter]. unfold t at 1. cbn [models.priority].
    rewrite bool_decide_eq_true_2 by reflexivity.
    cbn [List.filter]. unfold t at 1. cbn [id].
    now rewrite Z.eqb_refl. }
  rewrite (Hnew _ eq_refl). cbn [length].
  assert (forall l, Forall (fun r => id r < next_id d) l ->
                    List.filter (fun t0 => Z.eqb (id t0) (next_id d)) l = [])
    as Hnone.
  { induction 1 as [|r l Hr _ IH]; [reflexivity|].
    cbn. destruct (Z.eqb_spec (id r) (next_id d)); [lia | exact IH]. }
  rewrite Hnone; [reflexivity|].
  unfold db_wf in Hwf. rewrite List.Forall_forall in Hwf |- *.
  intros r Hr. apply Hwf.
  now apply filter_In in Hr as [Hr%filter_In _].
Qed.

(** An update or a delete without a usable selector (no task id or 0,
    and no title or an empty one) fails as not found on every store; and
    a task id of 64 bits that no row has is not found whatever title is
    given with it, because the title is only looked at when no task id
    is given. *)
Theorem selector_edge_cases task_id title_match d :
  let failure :=
    tools.error_response
      ("Task not found with ID "
       +:+ tools.selector_str task_id title_match +:+ ".") in
  ((truthy_int task_id = false /\ truthy_str title_match = false) \/
   (truthy_int task_id = true /\ bindable task_id /\
    Forall (fun r => id r <> default 0 task_id) (rows d))) ->
  forall new_title new_description new_status new_due_date new_priority,
    tools.update_task task_id title_match new_title new_description
      new_status new_due_date new_priority d = (failure, d) /\
    tools.delete_task task_id title_match d = (failure, d).
Proof.
  intros failure Hsel.
  assert (tools.find_task task_id title_match (SessionLocal d)
          = (None, SessionLocal d)) as Hfind.
  { unfold tools.find_task, query_first.
    destruct Hsel as [[-> ->]|(-> & _ & Hrows)]; [reflexivity|].
    cbn [bind SessionLocal].
    destruct (find _ (rows d)) as [r|] eqn:Hf; [|reflexivity].
    apply find_some in Hf as [Hin Heq%Z.eqb_eq].
    rewrite List.Forall_forall in Hrows. now destruct (Hrows r Hin). }
  intros. unfold tools.update_task, tools.update_task_try,
    tools.delete_task, tools.delete_task_try, tools.get_db_session_for_tool.
  rewrite Hfind. split; reflexivity.
Qed.

Lemma store_ok_insert_row d n : store_ok d -> store_ok (insert_row d n).
Proof.
  intros [Hwf Hnd]. unfold store_ok, db_wf, insert_row in *. cbn.
  rewrite List.Forall_forall in Hwf. split.
  - rewrite List.Forall_forall. intros r [Hr|[<-|[]]]%in_app_or.
    + specialize (Hwf r Hr). lia.
    + cbn. lia.
  - rewrite map_app. apply NoDup_app. split; [exact Hnd|].
    split; [|apply NoDup_singleton].
    intros x Hx [<-|[]]%list_elem_of_In.
    apply list_elem_of_In, in_map_iff in Hx as (r & Hr & Hin).
    specialize (Hwf r Hin). cbn in Hr. lia.
Qed.

Lemma NoDup_map_filter {A B : Type} (f : A -> B) (p : A -> bool) (l : list A) :
  NoDup (map f l) -> NoDup (map f (List.filter p l)).
Proof.
  induction l as [|x l IH]; cbn; [trivial|].
  intros [Hx Hl]%NoDup_cons. destruct (p x); [|now apply IH].
  cbn. apply NoDup_cons. split; [|now apply IH].
  intros Hin. apply Hx. apply list_elem_of_In in Hin.
  apply in_map_iff in Hin as (y & Hy & Hin%filter_In).
  apply list_elem_of_In, in_map_iff. exists y. tauto.
Qed.

(** Whatever a session holds, committing it keeps the primary keys
    distinct and below the next one. *)
Lemma store_ok_flushed s : store_ok (bind s) -> store_ok (flushed s).
Proof.
  intros [Hwf Hnd]. unfold flushed.
  set (base := {| rows := List.filter _ _; next_id := _; db_now := _ |}).
  assert (store_ok base) as Hbase.
  { unfold store_ok, db_wf, base. cbn.
    assert (map id (map (update_row (db_now (bind s)) (loaded s))
                      (rows (bind s))) = map id (rows (bind s))) as Hids.
    { rewrite map_map. apply map_ext. apply update_row_id. }
    split.
    - unfold db_wf in Hwf. rewrite List.Forall_forall in Hwf |- *.
      intros r [Hr _]%filter_In. apply in_map_iff in Hr as (r0 & <- & Hr0).
      rewrite update_row_id. now apply Hwf.
    - apply NoDup_map_filter. now rewrite Hids. }
  clearbody base. revert base Hbase.
  induction (added s) as [|n l IH]; intros base Hbase; [exact Hbase|].
  cbn. apply IH. now apply store_ok_insert_row.
Qed.

(** The three writing tools keep the primary keys distinct and below
    the next primary key, whatever their arguments and whether they
    succeed or fail. *)
Theorem writing_tools_keep_keys_distinct d :
  store_ok d ->
  (forall title description due_date priority,
     store_ok (snd (tools.create_task title description due_date priority d)))
  /\
  (forall task_id title_match new_title new_description new_status
          new_due_date new_priority,
     store_ok (snd (tools.update_task task_id title_match new_title
                      new_description new_status new_due_date new_priority d)))
  /\
  (forall task_id title_match,
     store_ok (snd (tools.delete_task task_id title_match d))).
Proof.
  intros Hok.
  assert (forall s, bind s = d -> store_ok (flushed s)) as Hflush
    by (intros s <-; now apply store_ok_flushed).
  split; [|split].
  - intros. unfold tools.create_task, tools.create_task_try, tools.commit,
      tools.get_db_session_for_tool.
    repeat case_match; simplify_eq; cbn [snd close rollback bind SessionLocal add];
      try exact Hok; now apply Hflush.
  - intros. unfold tools.update_task, tools.update_task_try, tools.commit,
      tools.get_db_session_for_tool, tools.assign.
    destruct (tools.find_task task_id title_match (SessionLocal d))
      as [[task|] s] eqn:Hf.
    2: { apply find_task_none in Hf as ->. exact Hok. }
    apply find_task_some in Hf as [_ ->].
    repeat case_match; simplify_eq;
      cbn [snd close rollback bind SessionLocal set_attrs];
      try exact Hok; now apply Hflush.
  - intros. unfold tools.delete_task, tools.delete_task_try, tools.commit,
      tools.get_db_session_for_tool.
    destruct (tools.find_task task_id title_match (SessionLocal d))
      as [[task|] s] eqn:Hf.
    2: { apply find_task_none in Hf as ->. exact Hok. }
    apply find_task_some in Hf as [_ ->].
    repeat case_match; simplify_eq;
      cbn [snd close rollback bind SessionLocal delete];
      try exact Hok; now apply Hflush.
Qed.

End writing.

(** ** The lookup of [update_task] and [delete_task] *)

Section lookup.
Context {R : Runtime}.

Lemma find_first_selected {A : Type} (f : A -> bool) (before after : list A)
    (x : A) :
  f x = true -> Forall (fun y => f y = false) before ->
  find f (before ++ x :: after) = Some x.
Proof.
  intros Hx Hb. induction Hb as [|y l Hy _ IH]; cbn.
  - now rewrite Hx.
  - now rewrite Hy.
Qed.

Lemma find_none_selected {A : Type} (f : A -> bool) (l : list A) :
  Forall (fun y => f y = false) l -> find f l = None.
Proof.
  induction 1 as [|y l Hy _ IH]; cbn; [reflexivity|]. now rewrite Hy.
Qed.

Lemma not_found_spec task_id title_match new_title new_description
    new_status new_due_date new_priority d :
  resolved task_id title_match d = None ->
  let failure :=
    tools.error_response
      ("Task not found with ID "
       +:+ tools.selector_str task_id title_match +:+ ".") in
  tools.update_task task_id title_match new_title new_description
    new_status new_due_date new_priority d = (failure, d) /\
  tools.delete_task task_id title_match d = (failure, d).
Proof.
  intros H failure. unfold resolved in H. split.
  - unfold tools.update_task, tools.update_task_try,
      tools.get_db_session_for_tool.
    destruct (tools.find_task task_id title_match (SessionLocal d))
      as [[task|] s] eqn:Hf; [discriminate|].
    apply find_task_none in Hf. now subst.
  - unfold tools.delete_task, tools.delete_task_try,
      tools.get_db_session_for_tool.
    destruct (tools.find_task task_id title_match (SessionLocal d))
      as [[task|] s] eqn:Hf; [discriminate|].
    apply find_task_none in Hf. now subst.
Qed.


End lookup.



(** ** More on the agent *)

Section more_agent.
Context {R : Runtime} {L : Model}.

Lemma unexpected_some (params : list string) (args : list (string * pyval)) :
  (exists k, In k (map fst args) /\ ~ In k params) ->
  exists k, tools.unexpected params args = Some k.
Proof.
  intros (k & Hk & Hnot). unfold tools.unexpected.
  destruct (find _ args) as [kv|] eqn:Hf; [now exists (fst kv)|].
  exfalso. apply in_map_iff in Hk as ([k0 v] & <- & Hin).
  pose proof (find_none _ _ Hf _ Hin) as Hnone. cbn in Hnone.
  apply negb_false_iff, existsb_exists in Hnone as (p & Hp & Heq).
  apply String.eqb_eq in Heq. subst. now apply Hnot.
Qed.

(** A call that does not fit the signature of a registered tool, by a
    keyword the tool does not have or by a create without a title, comes
    back as a Failure, and nothing has changed. *)
Theorem execute_tool_rejects_bad_call tool_name tool_args w :
  In tool_name tools_list ->
  (exists k, In k (map fst tool_args) /\ ~ In k (signature tool_name)) \/
  (tool_name = "create_task" /\ dict_get tool_args "title" = None) ->
  exists v,
    execute_tool tool_name tool_args w = (Returns v, w) /\
    is_failure v = true.
Proof.
  intros Hname Hbad. rewrite execute_tool_spec.
  assert (exists e, tools.invoke tool_name tool_args (store w)
                    = (Raises e, store w)) as [e He].
  { destruct Hbad as [Hkey|[-> Htitle]].
    - cbn in Hname.
      destruct Hname as [<-|[<-|[<-|[<-|[<-|[]]]]]];
        apply unexpected_some in Hkey as [k Hk];
        unfold tools.invoke; cbn [String.eqb Ascii.eqb Bool.eqb];
        cbn in Hk; rewrite Hk; eexists; reflexivity.
    - unfold tools.invoke. cbn [String.eqb Ascii.eqb Bool.eqb].
      destruct (tools.unexpected _ tool_args); [eexists; reflexivity|].
      rewrite Htitle. eexists; reflexivity. }
  unfold tool_outcome. rewrite He. cbn.
  eexists. split; [destruct w; reflexivity | reflexivity].
Qed.

(** The model node invokes the model exactly once and never touches the
    record store or the tool log, whether the model answers or faults. *)
Theorem call_model_leaves_store state w r w' :
  call_model state w = (r, w') ->
  store w' = store w /\ tool_log w' = tool_log w /\
  llm_calls w' = S (llm_calls w).
Proof.
  rewrite call_model_spec. cbv zeta.
  destruct (llm_invoke _ _); intros [= <- <-]; repeat split.
Qed.

Lemma step_extends_history node state w next state' w' :
  step node state w = (Returns (next, state'), w') ->
  exists extra,
    deref (chat_history state') w'
    = deref (chat_history state) w ++ extra.
Proof.
  destruct node.
  - rewrite step_model_spec. cbv zeta.
    destruct (llm_invoke _ _) as [response|e]; [|discriminate].
    intros [= <- <- <-]. unfold deref. cbn [chat_history heap].
    rewrite lookup_app_r by lia.
    rewrite Nat.sub_succ_l, Nat.sub_diag by lia. cbn.
    unfold messages_for, deref.
    destruct (input_missing _ _); rewrite <- ?app_assoc; eexists; reflexivity.
  - rewrite step_tool_spec. intros [= <- <- <-].
    unfold deref at 1. cbn [chat_history heap].
    rewrite lookup_app_r by lia. rewrite Nat.sub_diag. cbn.
    eexists; reflexivity.
Qed.

Lemma run_extends_history steps :
  forall node state w result w',
    run steps node state w = (Returns result, w') ->
    exists extra c,
      deref (chat_history result) w'
      = deref (chat_history state) w ++ extra ++ [AIMessage c []].
Proof.
  induction steps as [|steps IH]; intros node state w result w';
    [discriminate|].
  rewrite run_S.
  destruct (step node state w) as [[[[node1|] state1]|e] w1] eqn:Hstep;
    [| |discriminate].
  - intros Hrun. apply step_extends_history in Hstep as [e1 H1].
    apply IH in Hrun as (e2 & c & H2). exists (e1 ++ e2), c.
    now rewrite H2, H1, <- !app_assoc.
  - intros [= <- <-]. destruct node.
    + rewrite step_model_spec in Hstep. cbv zeta in Hstep.
      destruct (llm_invoke _ _) as [response|e]; [|discriminate].
      destruct (resp_tool_calls response) eqn:Hcalls; [|discriminate].
      injection Hstep as <- <-. unfold deref at 1. cbn [chat_history heap].
      rewrite lookup_app_r by lia.
      rewrite Nat.sub_succ_l, Nat.sub_diag by lia. cbn.
      unfold messages_for.
      destruct (input_missing _ _); rewrite <- ?app_assoc;
        [exists [HumanMessage (input state)], (content response)
        |exists [], (content response)]; reflexivity.
    + rewrite step_tool_spec in Hstep. discriminate.
Qed.

(** A completed turn only adds to the conversation: the history it
    stores is the history stored before followed by new messages, the
    last of which is the model's answer; and no list that existed before
    the turn has been changed, so the previous history object still reads
    the same. *)
Theorem turn_appends_to_history self user_input w result self' w' :
  process_input self user_input w = (Returns result, self', w') ->
  (exists extra c,
     deref (self_chat_history self') w'
     = deref (self_chat_history self) w ++ extra ++ [AIMessage c []]) /\
  (forall r, (r < length (heap w))%nat -> deref r w' = deref r w).
Proof.
  rewrite process_input_unfold.
  destruct (run _ _ _ _) as [[result0|e] w0] eqn:Hrun; [|discriminate].
  intros [= <- <- <-]. split.
  - apply run_extends_history in Hrun as (extra & c & Hextra).
    exists extra, c. cbn [self_chat_history]. rewrite Hextra.
    f_equal. apply deref_last.
  - intros r Hr. apply run_grows in Hrun as [extra Hextra].
    change (heap (snd (list_copy (self_chat_history self) w)))
      with (heap w ++ [deref (self_chat_history self) w]) in Hextra.
    eapply deref_grows; [exact Hr|].
    rewrite Hextra, <- app_assoc. reflexivity.
Qed.

Lemma pending_after_app (h1 h2 : list Message) :
  forall pending,
    pending_after pending (h1 ++ h2)
    = match pending_after pending h1 with
      | Some q => pending_after q h2
      | None => None
      end.
Proof.
  induction h1 as [|m h1 IH]; intros pending; [reflexivity|].
  cbn. destruct m as [c|c calls|c i], pending as [|p ps]; try reflexivity;
    try apply IH.
  destruct (String.eqb p i); [apply IH | reflexivity].
Qed.

Lemma results_answer_calls calls :
  forall d,
    pending_after (map tc_id calls)
      (map result_message (fst (tool_results calls d))) = Some [].
Proof.
  induction calls as [|tc calls IH]; intros d; [reflexivity|].
  cbn [tool_results].
  destruct (tool_outcome (tc_name tc) (tc_args tc) d) as [v d1].
  specialize (IH d1). destruct (tool_results calls d1) as [rs d2].
  cbn in *. now rewrite String.eqb_refl.
Qed.

Lemma step_keeps_answered node state w next state' w' :
  pending_after [] (deref (chat_history state) w)
  = Some (pending_at node state) ->
  step node state w = (Returns (next, state'), w') ->
  pending_after [] (deref (chat_history state') w')
  = Some (if next is Some node' then pending_at node' state' else []).
Proof.
  intros Hinv. destruct node.
  - rewrite step_model_spec. cbv zeta.
    destruct (llm_invoke _ _) as [response|e]; [|discriminate].
    intros [= <- <- <-]. unfold deref at 1. cbn [chat_history heap].
    rewrite lookup_app_r by lia.
    rewrite Nat.sub_succ_l, Nat.sub_diag by lia. cbn [lookup list_lookup default from_option].
    assert (pending_after [] (messages_for state w) = Some []) as Hsent.
    { unfold messages_for. destruct (input_missing _ _); [|exact Hinv].
      rewrite pending_after_app, Hinv. reflexivity. }
    cbn. rewrite pending_after_app, Hsent. cbn.
    now destruct (resp_tool_calls response).
  - rewrite step_tool_spec. intros [= <- <- <-].
    unfold deref at 1. cbn [chat_history heap].
    rewrite lookup_app_r by lia. rewrite Nat.sub_diag. cbn.
    rewrite pending_after_app, Hinv. apply results_answer_calls.
Qed.

Lemma run_keeps_answered steps :
  forall node state w result w',
    pending_after [] (deref (chat_history state) w)
    = Some (pending_at node state) ->
    run steps node state w = (Returns result, w') ->
    well_answered (deref (chat_history result) w').
Proof.
  induction steps as [|steps IH]; intros node state w result w' Hinv;
    [discriminate|].
  rewrite run_S.
  destruct (step node state w) as [[[[node1|] state1]|e] w1] eqn:Hstep;
    [| |discriminate].
  - apply IH. exact (step_keeps_answered _ _ _ _ _ _ Hinv Hstep).
  - intros [= <- <-]. exact (step_keeps_answered _ _ _ _ _ _ Hinv Hstep).
Qed.

(** If in the stored history every tool call is answered, in order and
    right after the model message that made it, and every tool message
    answers a call, then so it is in the history a completed turn
    stores. *)
Theorem turn_keeps_tool_calls_answered self user_input w result self' w' :
  well_answered (deref (self_chat_history self) w) ->
  process_input self user_input w = (Returns result, self', w') ->
  well_answered (deref (self_chat_history self') w').
Proof.
  intros Hok. rewrite process_input_unfold.
  destruct (run _ _ _ _) as [[result0|e] w0] eqn:Hrun; [|discriminate].
  intros [= <- <- <-]. cbn [self_chat_history].
  eapply run_keeps_answered; [|exact Hrun].
  cbn [pending_at]. rewrite <- Hok. f_equal. apply deref_last.
Qed.

(** After [clear_history] the model is told nothing of what was said
    before: the next turn, if the model answers at once, stores just the
    user's text and the answer. The record store is not touched by the
    clearing. *)
Theorem clear_history_starts_afresh self user_input w answer :
  (forall messages, llm_invoke (llm_calls w) messages = Returns answer) ->
  resp_tool_calls answer = [] ->
  (1 <= recursion_limit)%nat ->
  exists self0 w0 result self1 w1,
    clear_history self w = (Returns self0, w0) /\
    store w0 = store w /\
    process_input self0 user_input w0 = (Returns result, self1, w1) /\
    agent_outcome result = PStr (content answer) /\
    deref (self_chat_history self1) w1
    = [HumanMessage user_input; AIMessage (content answer) []].
Proof.
  intros Hanswer Hnone Hlimit.
  do 2 eexists. eexists _, _, _.
  split; [reflexivity|]. split; [reflexivity|].
  rewrite process_input_unfold.
  destruct recursion_limit as [|limit]; [lia|].
  rewrite run_S, step_model_spec. cbv zeta.
  cbn [llm_calls list_copy snd]. unfold list_copy, list_get, list_new,
    mbind, M_bind. cbn [snd llm_calls].
  rewrite Hanswer, Hnone.
  split; [reflexivity|]. split; [reflexivity|].
  cbn [self_chat_history chat_history].
  unfold deref at 1. cbn [heap]. rewrite lookup_app_r by lia.
  rewrite Nat.sub_succ_l, Nat.sub_diag by lia. cbn.
  unfold messages_for. cbn [chat_history initial_state input].
  assert (forall h x d n lg,
            deref (length h)
              {| heap := h ++ [x]; store := d; llm_calls := n;
                 tool_log := lg |} = x) as Hlast
    by (intros; apply deref_last).
  match goal with
  | |- context [deref ?r ?wd] =>
      replace (deref r wd) with (@nil Message)
  end.
  - reflexivity.
  - symmetry. cbn [heap length]. rewrite length_app. cbn [length].
    unfold deref. cbn [heap].
    rewrite lookup_app_r by (rewrite length_app; cbn; lia).
    rewrite length_app. cbn [length].
    replace (length (heap w) + 1 - (length (heap w) + 1))%nat with 0%nat
      by lia.
    cbn. unfold deref. cbn. rewrite lookup_app_r by lia.
    now rewrite Nat.sub_diag.
Qed.

End more_agent.

(** ** The connection manager *)

Section connections.
Context {K : websocket.Sockets}.

Import websocket.

Lemma list_remove_absent (x : nat) (l : list nat) :
  list_remove x l = None <-> ~ In x l.
Proof.
  induction l as [|y l IH]; cbn; [tauto|].
  destruct (Nat.eqb_spec x y) as [->|Hne].
  - split; [discriminate | intros H; destruct H; now left].
  - destruct (list_remove x l); cbn.
    + split; [discriminate|]. intros H. exfalso.
      assert (~ In x l) as Hl by (intros Hin; apply H; now right).
      now apply IH in Hl.
    + split; [|reflexivity]. intros _ [Heq|Hin]; [congruence|].
      now apply (proj1 IH).
Qed.

Lemma list_remove_middle (x : nat) (pre rest : list nat) :
  ~ In x pre -> list_remove x (pre ++ x :: rest) = Some (pre ++ rest).
Proof.
  induction pre as [|y pre IH]; cbn; intros Hx.
  - now rewrite Nat.eqb_refl.
  - destruct (Nat.eqb_spec x y) as [->|_]; [exfalso; apply Hx; now left|].
    rewrite IH by (intros Hin; apply Hx; now right). reflexivity.
Qed.

(** Connecting and then disconnecting a socket that was not connected
    leaves the list as it was; disconnecting a socket that is not in the
    list raises [ValueError] and changes nothing; and disconnecting one
    that is in the list takes out one entry. *)
Theorem connect_disconnect ws n :
  (accept_fault ws = None -> ~ In ws (active_connections n) ->
   exists n1, connect ws n = (None, n1) /\ disconnect ws n1 = (None, n)) /\
  (~ In ws (active_connections n) <-> disconnect ws n = (Some ValueError, n)) /\
  (In ws (active_connections n) ->
   exists n1, disconnect ws n = (None, n1) /\ wire n1 = wire n /\
     S (length (active_connections n1)) = length (active_connections n)).
Proof.
  split; [|split].
  - intros Hacc Hnew. unfold connect, disconnect. rewrite Hacc.
    eexists. split; [reflexivity|]. cbn.
    rewrite (list_remove_middle ws _ [] Hnew), app_nil_r. now destruct n.
  - unfold disconnect. split.
    + intros Hnot. apply list_remove_absent in Hnot. now rewrite Hnot.
    + destruct (list_remove ws (active_connections n)) eqn:Hr;
        [discriminate|]. intros _. now apply list_remove_absent.
  - intros Hin. unfold disconnect.
    apply in_split in Hin as (pre & rest & Hsplit).
    assert (exists pre' rest',
              active_connections n = pre' ++ ws :: rest' /\ ~ In ws pre')
      as (pre' & rest' & Heq & Hfirst).
    { clear -Hsplit. revert Hsplit. generalize (active_connections n).
      induction pre as [|y pre IH]; intros l ->.
      - exists [], rest. split; [reflexivity | tauto].
      - destruct (Nat.eq_dec ws y) as [->|Hne].
        + exists [], (pre ++ y :: rest). split; [reflexivity | tauto].
        + destruct (IH _ eq_refl) as (pre' & rest' & Heq & Hfirst).
          exists (y :: pre'), rest'. cbn. rewrite Heq.
          split; [reflexivity|]. intros [H|H]; [congruence | tauto]. }
    rewrite Heq, (list_remove_middle _ _ _ Hfirst).
    eexists. split; [reflexivity|]. cbn. split; [reflexivity|].
    rewrite !length_app. cbn. lia.
Qed.

Lemma lookup_split (pre suf : list nat) :
  (pre ++ suf) !! length pre = head suf.
Proof.
  rewrite lookup_app_r by lia. rewrite Nat.sub_diag. now destruct suf.
Qed.

Lemma loop_all_open data (suf : list nat) :
  forall fuel pre w,
    Forall (fun c => send_fault c = None) suf ->
    (length suf <= fuel)%nat ->
    broadcast_loop fuel (length pre) data
      {| active_connections := pre ++ suf; wire := w |}
    = Some (None,
            {| active_connections := pre ++ suf;
               wire := w ++ map (fun c => (c, data)) suf |}).
Proof.
  induction suf as [|c suf IH]; intros fuel pre w Hopen Hfuel.
  - destruct fuel; cbn [broadcast_loop active_connections];
      rewrite lookup_split; cbn; now rewrite !app_nil_r.
  - destruct fuel as [|fuel]; [cbn in Hfuel; lia|].
    apply Forall_cons in Hopen as [Hc Hopen].
    cbn [broadcast_loop active_connections]. rewrite lookup_split. cbn [head].
    unfold send. rewrite Hc. cbn [active_connections wire].
    replace (S (length pre)) with (length (pre ++ [c]))
      by (rewrite length_app; cbn; lia).
    replace (pre ++ c :: suf) with ((pre ++ [c]) ++ suf)
      by (now rewrite <- app_assoc).
    rewrite IH by (cbn in Hfuel; auto with lia).
    cbn. now rewrite <- !app_assoc.
Qed.

(** When every send goes through, a broadcast delivers the data to
    every connection, once for each entry of the list and in the order
    of the list, raises nothing and leaves the list as it is. *)
Theorem broadcast_reaches_all_open data n :
  Forall (fun c => send_fault c = None) (active_connections n) ->
  broadcast_json data n
  = Some (None,
          {| active_connections := active_connections n;
             wire := wire n
                     ++ map (fun c => (c, data)) (active_connections n) |}).
Proof.
  intros Hopen. unfold broadcast_json. destruct n as [conns w]. cbn.
  exact (loop_all_open data conns (length conns) [] w Hopen (le_n _)).
Qed.

Lemma NoDup_not_in_prefix (pre suf : list nat) (c : nat) :
  NoDup (pre ++ c :: suf) -> ~ In c pre.
Proof.
  intros (_ & Hdisj & _)%NoDup_app Hin.
  apply (Hdisj c); [now apply list_elem_of_In | now left].
Qed.

Lemma NoDup_drop_middle (pre suf : list nat) (c : nat) :
  NoDup (pre ++ c :: suf) -> NoDup (pre ++ suf).
Proof.
  intros (Hpre & Hdisj & [_ Hsuf]%NoDup_cons)%NoDup_app.
  apply NoDup_app. split; [exact Hpre|]. split; [|exact Hsuf].
  intros x Hx Hin. apply (Hdisj x Hx). now right.
Qed.

(** Over distinct connections the loop of [broadcast_json] ends, and
    comes to what [sweep] tells. *)
Lemma loop_sweep data fuel :
  forall suf pre w,
    NoDup (pre ++ suf) -> (length suf <= fuel)%nat ->
    broadcast_loop fuel (length pre) data
      {| active_connections := pre ++ suf; wire := w |}
    = Some (let '(kept, got, e) := sweep suf in
            (e, {| active_connections := pre ++ kept;
                   wire := w ++ map (fun c => (c, data)) got |})).
Proof.
  induction fuel as [|fuel IH]; intros suf pre w Hnd Hfuel.
  - destruct suf; [|cbn in Hfuel; lia].
    cbn [broadcast_loop active_connections]. rewrite lookup_split. cbn.
    now rewrite !app_nil_r.
  - destruct suf as [|c rest].
    { cbn [broadcast_loop active_connections]. rewrite lookup_split. cbn.
      now rewrite !app_nil_r. }
    cbn [broadcast_loop active_connections]. rewrite lookup_split. cbn [head].
    unfold send. cbn [sweep].
    destruct (send_fault c) as [[| |]|] eqn:Hc; cbn [active_connections wire].
    + unfold disconnect. cbn [active_connections wire].
      rewrite (list_remove_middle c pre rest (NoDup_not_in_prefix _ _ _ Hnd)).
      apply NoDup_drop_middle in Hnd.
      destruct rest as [|d rest'].
      * destruct fuel; cbn [broadcast_loop active_connections];
          rewrite app_nil_r, lookup_ge_None_2 by lia; cbn;
          now rewrite !app_nil_r.
      * replace (S (length pre)) with (length (pre ++ [d]))
          by (rewrite length_app; cbn; lia).
        replace (pre ++ d :: rest') with ((pre ++ [d]) ++ rest')
          by (now rewrite <- app_assoc).
        replace (pre ++ d :: rest') with ((pre ++ [d]) ++ rest') in Hnd
          by (now rewrite <- app_assoc).
        rewrite (IH rest' (pre ++ [d]) w Hnd) by (cbn in Hfuel; lia).
        destruct (sweep rest') as [[kept got] e].
        now rewrite <- app_assoc.
    + now rewrite app_nil_r.
    + now rewrite app_nil_r.
    + replace (S (length pre)) with (length (pre ++ [c]))
        by (rewrite length_app; cbn; lia).
      replace (pre ++ c :: rest) with ((pre ++ [c]) ++ rest)
        by (now rewrite <- app_assoc).
      replace (pre ++ c :: rest) with ((pre ++ [c]) ++ rest) in Hnd
        by (now rewrite <- app_assoc).
      rewrite (IH rest (pre ++ [c]) _ Hnd) by (cbn in Hfuel; lia).
      destruct (sweep rest) as [[kept got] e].
      cbn. now rewrite <- !app_assoc.
Qed.

Lemma sweep_facts bound :
  forall l, (length l <= bound)%nat ->
    sublist (fst (fst (sweep l))) l /\
    sublist (snd (fst (sweep l))) (fst (fst (sweep l))) /\
    Forall (fun c => send_fault c = None) (snd (fst (sweep l))) /\
    (forall c, In c l -> ~ In c (fst (fst (sweep l))) ->
               send_fault c = Some RuntimeError) /\
    (forall x, snd (sweep l) = Some x ->
               x <> RuntimeError /\
               exists c, In c l /\ send_fault c = Some x).
Proof.
  assert (sublist (fst (fst (sweep []))) [] /\
          sublist (snd (fst (sweep []))) (fst (fst (sweep []))) /\
          Forall (fun c => send_fault c = None) (snd (fst (sweep []))) /\
          (forall c, In c [] -> ~ In c (fst (fst (sweep []))) ->
                     send_fault c = Some RuntimeError) /\
          (forall x, snd (sweep []) = Some x ->
                     x <> RuntimeError /\
                     exists c, In c [] /\ send_fault c = Some x)) as Hnil.
  { cbn. split; [constructor|]. split; [constructor|].
    split; [constructor|]. split; [intros c []|]. intros x. discriminate. }
  induction bound as [|bound IH]; intros l Hlen.
  { destruct l; [exact Hnil | cbn in Hlen; lia]. }
  destruct l as [|c rest]; [exact Hnil|].
  cbn [sweep].
  destruct (send_fault c) as [[| |]|] eqn:Hc.
  - destruct rest as [|d rest'].
    + cbn. split; [apply sublist_nil_l|]. split; [constructor|].
      split; [constructor|]. split; [|intros x; discriminate].
      intros x [<-|[]] _. exact Hc.
    + destruct (IH rest') as (Hk & Hg & Ho & Hd & He);
        [cbn in Hlen; lia|].
      destruct (sweep rest') as [[kept got] e]. cbn in *.
      split; [now apply sublist_cons, sublist_skip|].
      split; [now apply sublist_cons|]. split; [exact Ho|]. split.
      * intros x [<-|[<-|Hx]] Hnot; [exact Hc | | ].
        -- exfalso. apply Hnot. now left.
        -- apply Hd; [exact Hx|]. intros Hin. apply Hnot. now right.
      * intros x Hx. destruct (He x Hx) as (Hne & c0 & Hin & Hf).
        split; [exact Hne|]. exists c0. auto.
  - cbn. split; [reflexivity|]. split; [apply sublist_nil_l|].
    split; [constructor|]. split; [tauto|].
    intros x [= <-]. split; [discriminate|]. exists c. split; [now left|].
    exact Hc.
  - cbn. split; [reflexivity|]. split; [apply sublist_nil_l|].
    split; [constructor|]. split; [tauto|].
    intros x [= <-]. split; [discriminate|]. exists c. split; [now left|].
    exact Hc.
  - destruct (IH rest) as (Hk & Hg & Ho & Hd & He); [cbn in Hlen; lia|].
    destruct (sweep rest) as [[kept got] e]. cbn in *.
    split; [now apply sublist_skip|]. split; [now apply sublist_skip|].
    split; [now constructor|]. split.
    + intros x [<-|Hx] Hnot; [exfalso; apply Hnot; now left|].
      apply Hd; [exact Hx|]. intros Hin. apply Hnot. now right.
    + intros x Hx. destruct (He x Hx) as (Hne & c0 & Hin & Hf).
      split; [exact Hne|]. exists c0. auto.
Qed.

(** A broadcast over distinct connections ends. Those still connected
    afterwards are among those connected before, in the same order; the
    data went, once each, to connections that are open and still
    connected; every connection dropped is one whose send raises
    [RuntimeError]; and the broadcast raises only what a send raises
    other than [RuntimeError]. *)
Theorem broadcast_drops_only_closed data n :
  NoDup (active_connections n) ->
  exists e n' got,
    broadcast_json data n = Some (e, n') /\
    sublist (active_connections n') (active_connections n) /\
    wire n' = wire n ++ map (fun c => (c, data)) got /\
    sublist got (active_connections n') /\
    Forall (fun c => send_fault c = None) got /\
    (forall c, In c (active_connections n) ->
               ~ In c (active_connections n') ->
               send_fault c = Some RuntimeError) /\
    (forall x, e = Some x ->
               x <> RuntimeError /\
               exists c, In c (active_connections n) /\
                         send_fault c = Some x).
Proof.
  intros Hnd. destruct n as [conns w]. unfold broadcast_json.
  cbn [active_connections wire] in *.
  pose proof (loop_sweep data (length conns) conns [] w Hnd (le_n _))
    as Hloop.
  cbn [length app] in Hloop. rewrite Hloop. clear Hloop.
  destruct (sweep_facts (length conns) conns (le_n _))
    as (Hk & Hg & Ho & Hd & He).
  destruct (sweep conns) as [[kept got] e]. cbn in *.
  exists e. eexists. exists got. repeat split; try assumption.
  - now apply He.
  - now apply He.
Qed.

Lemma sweep_open_prefix (pre l : list nat) :
  Forall (fun c => send_fault c = None) pre ->
  sweep (pre ++ l)
  = (pre ++ fst (fst (sweep l)), pre ++ snd (fst (sweep l)), snd (sweep l)).
Proof.
  induction 1 as [|c pre Hc _ IH]; cbn [app sweep].
  - now destruct (sweep l) as [[kept got] e].
  - rewrite Hc, IH. reflexivity.
Qed.

(** A connection that comes in the list right after one whose send
    raises [RuntimeError] is passed over by the broadcast: the closed one
    is dropped, and the one after it stays connected but is sent nothing,
    whether it is open or not. *)
Theorem broadcast_passes_over_next data pre a b post w :
  NoDup (pre ++ a :: b :: post) ->
  Forall (fun c => send_fault c = None) pre ->
  send_fault a = Some RuntimeError ->
  exists e n',
    broadcast_json data
      {| active_connections := pre ++ a :: b :: post; wire := w |}
    = Some (e, n') /\
    In b (active_connections n') /\
    ~ In a (active_connections n') /\
    ~ In b (map fst (drop (length w) (wire n'))).
Proof.
  intros Hnd Hopen Ha. unfold broadcast_json. cbn [active_connections].
  pose proof (loop_sweep data _ (pre ++ a :: b :: post) [] w Hnd (le_n _))
    as Hloop.
  cbn [length app] in Hloop. rewrite Hloop. clear Hloop.
  rewrite (sweep_open_prefix pre _ Hopen). cbn [sweep]. rewrite Ha.
  destruct (sweep_facts (length post) post (le_n _)) as (Hk & Hg & _).
  destruct (sweep post) as [[kept got] e]. cbn [fst snd app] in *.
  do 2 eexists. split; [reflexivity|]. cbn [active_connections wire].
  assert (forall x, In x got -> In x post) as Hgot.
  { intros x Hx. apply list_elem_of_In.
    eapply elem_of_sublist; [|exact Hk].
    eapply elem_of_sublist; [|exact Hg]. now apply list_elem_of_In. }
  assert (forall x, In x kept -> In x post) as Hkept.
  { intros x Hx. apply list_elem_of_In.
    eapply elem_of_sublist; [|exact Hk]. now apply list_elem_of_In. }
  pose proof (NoDup_not_in_prefix _ _ _ Hnd) as Hapre.
  apply NoDup_drop_middle in Hnd as Hnd'.
  pose proof (NoDup_not_in_prefix _ _ _ Hnd') as Hbpre.
  apply NoDup_app in Hnd as (_ & _ & [Hatail _]%NoDup_cons).
  apply NoDup_app in Hnd' as (_ & _ & [Hbtail _]%NoDup_cons).
  split; [apply in_or_app; right; now left|]. split.
  - intros [Hin|[Heq|Hin]]%in_app_or; [tauto| |].
    + apply Hatail. rewrite Heq. now left.
    + apply Hatail. right. apply list_elem_of_In. now apply Hkept.
  - rewrite drop_app_length, map_map. cbn. rewrite map_id.
    intros [Hin|Hin]%in_app_or; [tauto|].
    apply Hbtail. apply list_elem_of_In. now apply Hgot.
Qed.

End connections.

(** ** More of the code at work *)

Lemma milk_db_ok : store_ok milk_db.
Proof.
  split.
  - repeat constructor.
  - apply (bool_decide_unpack _). vm_compute. exact I.
Qed.

Lemma two_milks_db_ok : store_ok two_milks_db.
Proof.
  split.
  - repeat constructor.
  - apply (bool_decide_unpack _). vm_compute. exact I.
Qed.

(** Filtering the two stored tasks by priority low. *)
Lemma filter_tasks_selects_witness :
  exists tasks,
    tools.filter_tasks None (Some "Low") None None two_milks_db
    = (tools.tasks_response tasks, two_milks_db) /\
    newest_first tasks /\
    forall t,
      In t tasks <->
      In t (rows two_milks_db) /\
      (forall v, None = Some v -> models.status t = v) /\
      (forall v, Some LOW = Some v -> models.priority t = v) /\
      (forall v, None = Some v ->
                 exists due, due_date t = Some due /\ due <= v) /\
      (forall v, None = Some v ->
                 exists due, due_date t = Some due /\ v <= due).
Proof.
  apply (filter_tasks_selects None (Some "Low") None None
           None (Some LOW) None None two_milks_db).
  - reflexivity.
  - split; reflexivity.
  - reflexivity.
  - reflexivity.
Defined.

(** A date that does not parse, given to the filter. *)
Lemma filter_tasks_rejects_and_reads_only_witness :
  snd (tools.filter_tasks None None (Some "tomorrow") None milk_db) = milk_db
  /\
  is_failure (fst (tools.filter_tasks None None (Some "tomorrow") None
                     milk_db)) = true.
Proof.
  destruct (filter_tasks_rejects_and_reads_only None None (Some "tomorrow")
              None milk_db) as [Hsame Hfail].
  split; [exact Hsame|].
  apply Hfail. right. right. left. split; reflexivity.
Defined.

(** A priority written in mixed case. *)
Lemma enum_names_in_any_case_witness :
  parse_priority "HiGh" = Some HIGH /\
  parse_status "In_Progress" = Some IN_PROGRESS.
Proof.
  destruct enum_names_in_any_case as [Hp Hs].
  split.
  - apply Hp; reflexivity.
  - apply Hs; reflexivity.
Defined.

(** A create with a due date and a priority. *)
Lemma create_task_stores_arguments_witness :
  exists t response,
    tools.create_task "pay rent" (Some "before noon") (Some "2025-02-01")
      (Some "urgent") milk_db
    = (response,
       {| rows := rows milk_db ++ [t]; next_id := next_id milk_db + 1;
          db_now := db_now milk_db |}) /\
    is_success response = true /\
    getitem response "task" = Returns (tools.task_dict t) /\
    t = {| id := next_id milk_db; title := "pay rent";
           description := Some "before noon"; status := TODO;
           due_date := Some 20250201;
           priority := default MEDIUM (Some URGENT);
           created_at := db_now milk_db; updated_at := db_now milk_db |}.
Proof.
  apply (create_task_stores_arguments "pay rent" (Some "before noon")
           (Some "2025-02-01") (Some "urgent") (Some 20250201) (Some URGENT)
           milk_db).
  - exact (proj1 milk_db_ok).
  - split; reflexivity.
  - split; reflexivity.
  - intros s. reflexivity.
Defined.

(** Marking the second of two tasks done, by a piece of its title. *)
Lemma update_task_rewrites_one_row_witness :
  exists before after t' response,
    rows two_milks_db = before ++ oat_milk :: after /\
    tools.update_task None (Some "oat") None None (Some "done") None None
      two_milks_db
    = (response,
       {| rows := before ++ t' :: after; next_id := next_id two_milks_db;
          db_now := db_now two_milks_db |}) /\
    is_success response = true /\
    getitem response "task" = Returns (tools.task_dict t') /\
    t' = stamped (db_now two_milks_db) oat_milk
           (updated_task oat_milk None None (Some DONE) None None) /\
    id t' = id oat_milk /\ created_at t' = created_at oat_milk /\
    (truthy_str None = false -> truthy_str None = false ->
     Some DONE = None -> @None Z = None -> @None TaskPriority = None ->
     tools.update_task None (Some "oat") None None (Some "done") None None
       two_milks_db = (response, two_milks_db)).
Proof.
  apply (update_task_rewrites_one_row None (Some "oat") None None
           (Some "done") None None (Some DONE) None None two_milks_db
           oat_milk).
  - exact (proj2 two_milks_db_ok).
  - reflexivity.
  - split; reflexivity.
  - reflexivity.
  - reflexivity.
  - intros s. reflexivity.
Defined.


(** A task created in the store of one task and deleted again. *)
Lemma create_then_delete_restores_rows_witness :
  exists key,
    task_field
      (fst (tools.create_task "pay rent" None None None milk_db)) "id"
    = Some (PInt key) /\
    is_success
      (fst (tools.delete_task (Some key) None
              (snd (tools.create_task "pay rent" None None None milk_db))))
    = true /\
    rows (snd (tools.delete_task (Some key) None
                 (snd (tools.create_task "pay rent" None None None
                         milk_db))))
    = rows milk_db.
Proof.
  apply (create_then_delete_restores_rows "pay rent" None None None
           None None None milk_db).
  - exact milk_db_ok.
  - discriminate.
  - intros z [= <-]. vm_compute. split; [discriminate|reflexivity].
  - reflexivity.
  - reflexivity.
  - intros s. reflexivity.
Defined.

(** A task created with priority high and looked for with the filter. *)
Lemma create_then_filter_finds_it_once_witness :
  exists tasks,
    tools.filter_tasks (Some "todo")
      (Some (priority_value (default MEDIUM (Some HIGH)))) None None
      (snd (tools.create_task "pay rent" None None (Some "high") milk_db))
    = (tools.tasks_response tasks,
       snd (tools.create_task "pay rent" None None (Some "high") milk_db)) /\
    length (List.filter (fun t => Z.eqb (id t) (next_id milk_db)) tasks)
    = 1%nat.
Proof.
  apply (create_then_filter_finds_it_once "pay rent" None None (Some "high")
           None (Some HIGH) milk_db).
  - exact milk_db_ok.
  - reflexivity.
  - split; reflexivity.
  - intros s. reflexivity.
Defined.

(** An update with no selector at all, and one by a key no row has
    together with a title that a row does have. *)
Lemma selector_edge_cases_witness :
  tools.update_task None None (Some "x") None None None None milk_db
  = (tools.error_response "Task not found with ID None.", milk_db) /\
  tools.delete_task (Some 7) (Some "milk") milk_db
  = (tools.error_response "Task not found with ID 7.", milk_db).
Proof.
  split.
  - refine (proj1 (selector_edge_cases None None milk_db _
                     (Some "x") None None None None)).
    left. split; reflexivity.
  - refine (proj2 (selector_edge_cases (Some 7) (Some "milk") milk_db _
                     None None None None None)).
    right. split; [reflexivity|]. split; [intros z [= <-]; lia|].
    repeat constructor. discriminate.
Defined.

(** The keys of the two stored tasks stay distinct through a create. *)
Lemma writing_tools_keep_keys_distinct_witness :
  store_ok (snd (tools.create_task "pay rent" None None None two_milks_db)).
Proof.
  apply (proj1 (writing_tools_keep_keys_distinct two_milks_db
                  two_milks_db_ok)).
Defined.

(** A create called with a keyword it does not have. *)
Lemma execute_tool_rejects_bad_call_witness :
  exists v,
    execute_tool "create_task"
      [("title", PStr "pay rent"); ("colour", PStr "red")] world0
    = (Returns v, world0) /\
    is_failure v = true.
Proof.
  apply (execute_tool_rejects_bad_call "create_task"
           [("title", PStr "pay rent"); ("colour", PStr "red")] world0).
  - now left.
  - left. exists "colour". split.
    + right. now left.
    + cbn. intuition discriminate.
Defined.

(** The model node on a history that ends with the user's text. *)
Lemma call_model_leaves_store_witness :
  store (snd (call_model (L := parrot "ok") hi_state seeded_world))
  = store seeded_world /\
  tool_log (snd (call_model (L := parrot "ok") hi_state seeded_world))
  = tool_log seeded_world /\
  llm_calls (snd (call_model (L := parrot "ok") hi_state seeded_world))
  = S (llm_calls seeded_world).
Proof.
  apply (call_model_leaves_store (L := parrot "ok") hi_state seeded_world
           (fst (call_model (L := parrot "ok") hi_state seeded_world))).
  apply surjective_pairing.
Defined.

(** A turn with a create and a list in one tool step. *)
Lemma turn_appends_to_history_witness :
  exists result self' w',
    process_input
      (L := scripted [asks [create_milk; list_call]; says "Done."])
      agent0 "add milk" world0 = (Returns result, self', w') /\
    (exists extra c,
       deref (self_chat_history self') w'
       = deref (self_chat_history agent0) world0 ++ extra
         ++ [AIMessage c []]) /\
    (forall r, (r < length (heap world0))%nat ->
               deref r w' = deref r world0).
Proof.
  destruct (process_input
              (L := scripted [asks [create_milk; list_call]; says "Done."])
              agent0 "add milk" world0) as [[[result|e] self'] w'] eqn:Hrun.
  - exists result, self', w'. split; [reflexivity|].
    exact (turn_appends_to_history _ _ _ _ _ _ Hrun).
  - vm_compute in Hrun. discriminate.
Defined.

Lemma turn_keeps_tool_calls_answered_witness :
  exists result self' w',
    process_input
      (L := scripted [asks [create_milk; list_call]; says "Done."])
      agent0 "add milk" world0 = (Returns result, self', w') /\
    well_answered (deref (self_chat_history self') w').
Proof.
  destruct (process_input
              (L := scripted [asks [create_milk; list_call]; says "Done."])
              agent0 "add milk" world0) as [[[result|e] self'] w'] eqn:Hrun.
  - exists result, self', w'. split; [reflexivity|].
    refine (turn_keeps_tool_calls_answered agent0 "add milk" world0 _ _ _
              _ Hrun).
    reflexivity.
  - vm_compute in Hrun. discriminate.
Defined.

(** Clearing a session and saying hello. *)
Lemma clear_history_starts_afresh_witness :
  exists self0 w0 result self1 w1,
    clear_history agent0 seeded_world = (Returns self0, w0) /\
    store w0 = store seeded_world /\
    process_input (L := parrot "Hello!") self0 "hello" w0
    = (Returns result, self1, w1) /\
    agent_outcome result = PStr (content (says "Hello!")) /\
    deref (self_chat_history self1) w1
    = [HumanMessage "hello"; AIMessage (content (says "Hello!")) []].
Proof.
  apply (clear_history_starts_afresh (L := parrot "Hello!") agent0 "hello"
           seeded_world (says "Hello!")).
  - intros messages. reflexivity.
  - reflexivity.
  - cbn. lia.
Defined.

(** Socket 4 joins three others and leaves again; socket 9 was never
    there. *)
Lemma connect_disconnect_witness :
  (exists n1,
     websocket.connect (K := all_open) 4 three_sockets = (None, n1) /\
     websocket.disconnect 4 n1 = (None, three_sockets)) /\
  websocket.disconnect 9 three_sockets
  = (Some websocket.ValueError, three_sockets).
Proof.
  destruct (connect_disconnect (K := all_open) 4 three_sockets)
    as (Hround & _ & _).
  destruct (connect_disconnect (K := all_open) 9 three_sockets)
    as (_ & Habsent & _).
  split.
  - apply Hround; [reflexivity|]. cbn. lia.
  - apply Habsent. cbn. lia.
Defined.

Lemma broadcast_reaches_all_open_witness :
  websocket.broadcast_json (K := all_open) refresh_payload three_sockets
  = Some (None,
          {| websocket.active_connections := [1; 2; 3]%nat;
             websocket.wire :=
               [(1%nat, refresh_payload); (2%nat, refresh_payload);
                (3%nat, refresh_payload)] |}).
Proof.
  apply (broadcast_reaches_all_open (K := all_open) refresh_payload
           three_sockets).
  repeat constructor.
Defined.

Lemma three_sockets_distinct :
  NoDup (websocket.active_connections three_sockets).
Proof. apply (bool_decide_unpack _). vm_compute. exact I. Qed.

(** Sockets 1 and 2 are closed: 1 is dropped, 2 is passed over. *)
Lemma broadcast_drops_only_closed_witness :
  exists e n' got,
    websocket.broadcast_json (K := two_closed) refresh_payload three_sockets
    = Some (e, n') /\
    sublist (websocket.active_connections n')
      (websocket.active_connections three_sockets) /\
    websocket.wire n'
    = websocket.wire three_sockets
      ++ map (fun c => (c, refresh_payload)) got /\
    sublist got (websocket.active_connections n') /\
    Forall (fun c => websocket.send_fault (Sockets := two_closed) c = None)
      got /\
    (forall c, In c (websocket.active_connections three_sockets) ->
               ~ In c (websocket.active_connections n') ->
               websocket.send_fault (Sockets := two_closed) c
               = Some websocket.RuntimeError) /\
    (forall x, e = Some x ->
               x <> websocket.RuntimeError /\
               exists c, In c (websocket.active_connections three_sockets) /\
                         websocket.send_fault (Sockets := two_closed) c
                         = Some x).
Proof.
  apply (broadcast_drops_only_closed (K := two_closed) refresh_payload
           three_sockets).
  exact three_sockets_distinct.
Defined.

Lemma broadcast_passes_over_next_witness :
  exists e n',
    websocket.broadcast_json (K := two_closed) refresh_payload three_sockets
    = Some (e, n') /\
    In 2%nat (websocket.active_connections n') /\
    ~ In 1%nat (websocket.active_connections n') /\
    ~ In 2%nat (map fst (drop (length (@nil (nat * pyval)))
                           (websocket.wire n'))).
Proof.
  apply (broadcast_passes_over_next (K := two_closed) refresh_payload
           [] 1%nat 2%nat [3%nat] []).
  - exact three_sockets_distinct.
  - constructor.
  - reflexivity.
Defined.
